(** * audio-manager: the AudioManager component

    A shallow embedding of [src/components/AudioManager.tsx]: the filename
    parser, the directory scanner, the grouping derivation and the event
    handlers of the component, with the properties of the specification
    stated and settled against them.

    Conventions.
    - A JavaScript string is a [string]; the regular expressions of the
      component only test characters against ASCII digits and ASCII
      literals, so a character is an [ascii].
    - A JavaScript number that holds a time value (milliseconds since the
      epoch) is a [Z]: the values involved are integers far below 2^53.
      The playback position and duration are IEEE doubles, [float].
    - An event handler is a computation in the monad [M] over the state of
      the component; what the environment answers at an [await] is an
      argument of the handler. *)

From Stdlib Require Import ZArith String Ascii List Floats Permutation Lia.
From Stdlib Require Import Sorting.Sorted.
From stdpp Require Import gmap strings list sorting.

Local Open Scope string_scope.
Local Open Scope Z_scope.

(** ** Regular expressions

    The fragment of JavaScript regular expressions used by the component:
    [\d{n}], literal characters, capturing groups, concatenation, and the
    anchors [^] and [$].  No alternation and no repetition of variable
    length occur, so matching at a position is deterministic. *)

Module Regex.

Inductive re : Type :=
| Digits (n : nat)      (* \d{n} *)
| Lit (p : string)      (* literal characters *)
| Group (r : re)        (* ( r ) *)
| Seq (r1 r2 : re).     (* r1 r2 *)

Record regex : Type := mkRegex {
  anchor_start : bool;  (* ^ *)
  body : re;
  anchor_end : bool     (* $ *)
}.

(** [\d] without the [u] flag is exactly [0-9]. *)
Definition is_digit (c : ascii) : bool :=
  ((48 <=? N_of_ascii c) && (N_of_ascii c <=? 57))%N.

Fixpoint match_digits (n : nat) (s : string) : option string :=
  match n with
  | O => Some s
  | S n' =>
      match s with
      | String c s' => if is_digit c then match_digits n' s' else None
      | EmptyString => None
      end
  end.

Fixpoint match_lit (p s : string) : option string :=
  match p with
  | EmptyString => Some s
  | String a p' =>
      match s with
      | String c s' => if Ascii.eqb a c then match_lit p' s' else None
      | EmptyString => None
      end
  end.

(** The text consumed between the input [s] and what is left, [rest]. *)
Definition consumed (s rest : string) : string :=
  substring 0 (String.length s - String.length rest) s.

(** [exec r s]: match [r] at the start of [s]; the captures of its groups
    in order, and the rest of the input. *)
Fixpoint exec (r : re) (s : string) : option (list string * string) :=
  match r with
  | Digits n =>
      match match_digits n s with
      | Some rest => Some (nil, rest)
      | None => None
      end
  | Lit p =>
      match match_lit p s with
      | Some rest => Some (nil, rest)
      | None => None
      end
  | Group r' =>
      match exec r' s with
      | Some (caps, rest) => Some (consumed s rest :: caps, rest)
      | None => None
      end
  | Seq r1 r2 =>
      match exec r1 s with
      | Some (c1, s1) =>
          match exec r2 s1 with
          | Some (c2, s2) => Some ((c1 ++ c2)%list, s2)
          | None => None
          end
      | None => None
      end
  end.

(** A match at the start of [s]: the array [whole; capture 1; ...]. *)
Definition match_at (rx : regex) (s : string) : option (list string) :=
  match exec (body rx) s with
  | Some (caps, rest) =>
      if anchor_end rx && negb (String.eqb rest "")
      then None
      else Some (consumed s rest :: caps)
  | None => None
  end.

(** The leftmost match: start positions are tried from left to right. *)
Fixpoint search (rx : regex) (s : string) : option (list string) :=
  match match_at rx s with
  | Some m => Some m
  | None =>
      match s with
      | String _ s' => search rx s'
      | EmptyString => None
      end
  end.

(** [s.match(rx)] for a regular expression without the [g] flag. *)
Definition str_match (rx : regex) (s : string) : option (list string) :=
  if anchor_start rx then match_at rx s else search rx s.

End Regex.

(** ** Dates

    [new Date(year, monthIndex, day, hours, minutes)] as ECMAScript
    defines it: MakeDay, MakeTime and MakeDate on the local time, then the
    conversion of the host from local time to UTC. *)

Module JSDate.

Definition msPerDay : Z := 86400000.
Definition msPerHour : Z := 3600000.
Definition msPerMinute : Z := 60000.
Definition msPerSecond : Z := 1000.

Definition DayFromYear (y : Z) : Z :=
  365 * (y - 1970) + (y - 1969) / 4 - (y - 1901) / 100 + (y - 1601) / 400.

Definition InLeapYear (y : Z) : bool :=
  (y mod 4 =? 0) && (negb (y mod 100 =? 0) || (y mod 400 =? 0)).

(** The day within the year on which month [mn] (0 to 11) starts. *)
Definition MonthStart (leap : bool) (mn : Z) : Z :=
  let l := if leap then 1 else 0 in
  match mn with
  | 0 => 0
  | 1 => 31
  | 2 => 59 + l
  | 3 => 90 + l
  | 4 => 120 + l
  | 5 => 151 + l
  | 6 => 181 + l
  | 7 => 212 + l
  | 8 => 243 + l
  | 9 => 273 + l
  | 10 => 304 + l
  | _ => 334 + l
  end.

(** Months outside 0..11 carry into the year, days outside the month roll
    over into the neighbouring months. *)
Definition MakeDay (year month date : Z) : Z :=
  let ym := year + month / 12 in
  let mn := month mod 12 in
  DayFromYear ym + MonthStart (InLeapYear ym) mn + date - 1.

Definition MakeTime (hour min sec ms : Z) : Z :=
  hour * msPerHour + min * msPerMinute + sec * msPerSecond + ms.

Definition MakeDate (day time : Z) : Z := day * msPerDay + time.

Definition MakeFullYear (y : Z) : Z :=
  if (0 <=? y) && (y <=? 99) then 1900 + y else y.

(** The local time value of the five-argument constructor. *)
Definition local_time (year month date hour min : Z) : Z :=
  MakeDate (MakeDay (MakeFullYear year) month date) (MakeTime hour min 0 0).

End JSDate.

(** The decimal value of a string of digits: what ToNumber and [parseInt]
    both give on the captures of the parser, which are digits only. *)
Definition digit_value (c : ascii) : Z := Z.of_N (N_of_ascii c) - 48.

Fixpoint decimal_from (acc : Z) (s : string) : Z :=
  match s with
  | EmptyString => acc
  | String c s' => decimal_from (10 * acc + digit_value c) s'
  end.

Definition ToNumber (s : string) : Z := decimal_from 0 s.
Definition parseInt (s : string) : Z := decimal_from 0 s.

(** ** The data model *)

(** [entry.kind] *)
Inductive EntryKind : Type := KindFile | KindDirectory.

(** A [FileSystemHandle] yielded by the enumeration of a directory. *)
Record Entry : Type := mkEntry {
  kind : EntryKind;
  entry_name : string
}.

(** What [parseFileName] returns on a match. *)
Record DateInfo : Type := mkDateInfo {
  di_year : string;
  di_month : string;
  di_day : string;
  di_time : string;
  di_fullDate : Z       (* fullDate.getTime() *)
}.

(** interface AudioFile *)
Record AudioFile : Type := mkAudioFile {
  name : string;
  handle : Entry;
  year : string;
  month : string;
  day : string;
  time : string;
  fullDate : Z          (* fullDate.getTime() *)
}.

(** [Array.prototype.sort] with a comparison function.  The order of the
    result is fixed by the language for a consistent comparison function:
    the sort is stable, and insertion sort computes that result. *)
Section Sort.

Context {A : Type} (compareFn : A -> A -> Z).

Fixpoint sort_insert (x : A) (l : list A) : list A :=
  match l with
  | nil => x :: nil
  | y :: l' => if compareFn x y <=? 0 then x :: l else y :: sort_insert x l'
  end.

Definition array_sort (l : list A) : list A := foldr sort_insert nil l.

End Sort.

(** The enumeration [dirHandle.values()]: an asynchronous iterator that
    yields entries and ends, or throws on the way. *)
Inductive DirIter : Type :=
| IterDone
| IterYield (entry : Entry) (rest : DirIter)
| IterThrow (error : string).

(** The enumeration that yields the entries of a list and ends. *)
Fixpoint iter_of_list (l : list Entry) : DirIter :=
  match l with
  | nil => IterDone
  | e :: l' => IterYield e (iter_of_list l')
  end.

(** The entries an enumeration yields before it ends or throws. *)
Fixpoint iter_entries (it : DirIter) : list Entry :=
  match it with
  | IterYield e rest => e :: iter_entries rest
  | _ => nil
  end.

(** Whether the enumeration throws before it ends. *)
Fixpoint iter_throws (it : DirIter) : bool :=
  match it with
  | IterDone => false
  | IterYield _ rest => iter_throws rest
  | IterThrow _ => true
  end.

Section Parser.

(** The conversion of the host from a local time value to UTC; it depends
    on the time zone of the browser. *)
Variable UTC : Z -> Z.

Definition new_Date (y : string) (monthIndex : Z) (d h mi : string) : Z :=
  UTC (JSDate.local_time (ToNumber y) monthIndex (ToNumber d)
         (ToNumber h) (ToNumber mi)).

(** /(\d{2})(\d{2})(\d{2})_(\d{2})(\d{2})\.mp3/ *)
Definition parse_re : Regex.regex :=
  let d2 := Regex.Group (Regex.Digits 2) in
  Regex.mkRegex false
    (Regex.Seq d2 (Regex.Seq d2 (Regex.Seq d2 (Regex.Seq (Regex.Lit "_")
       (Regex.Seq d2 (Regex.Seq d2 (Regex.Lit ".mp3")))))))
    false.

(** /^\d{6}_\d{4}\.mp3$/ *)
Definition scan_re : Regex.regex :=
  Regex.mkRegex true
    (Regex.Seq (Regex.Digits 6) (Regex.Seq (Regex.Lit "_")
       (Regex.Seq (Regex.Digits 4) (Regex.Lit ".mp3"))))
    true.

Definition parseFileName (filename : string) : option DateInfo :=
  match Regex.str_match parse_re filename with
  | Some (_ :: y :: mo :: d :: hour :: minute :: nil) =>
      Some {| di_year := "20" ++ y;
              di_month := mo;
              di_day := d;
              di_time := hour ++ ":" ++ minute;
              di_fullDate := new_Date ("20" ++ y) (parseInt mo - 1) d hour minute |}
  | _ => None
  end.

(** The body of the [for await] loop of [handleFolderSelect]. *)
Definition scan_entry (audioFiles : list AudioFile) (entry : Entry)
  : list AudioFile :=
  match kind entry, Regex.str_match scan_re (entry_name entry) with
  | KindFile, Some _ =>
      match parseFileName (entry_name entry) with
      | Some dateInfo =>
          (audioFiles ++ [ {| name := entry_name entry;
                              handle := entry;
                              year := di_year dateInfo;
                              month := di_month dateInfo;
                              day := di_day dateInfo;
                              time := di_time dateInfo;
                              fullDate := di_fullDate dateInfo |} ])%list
      | None => audioFiles
      end
  | _, _ => audioFiles
  end.

(** The loop: the array built when the enumeration ends, or the error it
    throws. *)
Fixpoint scan_loop (it : DirIter) (audioFiles : list AudioFile)
  : list AudioFile + string :=
  match it with
  | IterDone => inl audioFiles
  | IterYield entry rest => scan_loop rest (scan_entry audioFiles entry)
  | IterThrow error => inr error
  end.

(** (a, b) => b.fullDate.getTime() - a.fullDate.getTime() *)
Definition by_date_desc (a b : AudioFile) : Z := fullDate b - fullDate a.

End Parser.

(** ** The state of the component and of its host *)

(** A [blob:] URL made by [URL.createObjectURL]; they are numbered in the
    order of creation. *)
Definition URL : Type := nat.

(** The [File] read from a handle. *)
Record File : Type := mkFile { file_name : string }.

(** The speech recognition pipeline, once loaded. *)
Inductive Pipeline : Type := WhisperSmall.

(** The one audio element, [new Audio()]. *)
Module Audio.
Record t : Type := mk {
  paused : bool;
  src : option URL;
  currentTime : float;
  duration : float
}.
Definition init : t := mk true None 0%float nan.
End Audio.

(** What the handlers do to the host, in the order they do it. *)
Inductive Effect : Type :=
| AudioPause
| AudioPlay
| AudioSetSrc (u : URL)
| AudioSetCurrentTime (t : float)
| CreateObjectURL (u : URL)
| RevokeObjectURL (u : URL)
| CallPipeline (fileData : File)
| ConsoleError (msg : string).

Record State : Type := mkState {
  (* useState *)
  files : list AudioFile;
  selectedFile : option AudioFile;
  transcript : string;
  isTranscribing : bool;
  transcriptionProgress : Z;
  isPlaying : bool;
  duration : float;
  currentTime : float;
  (* useRef *)
  audioRef : Audio.t;
  transciberRef : option Pipeline;
  (* the host: the object URLs that are live, how many were created, the
     calls of the pipeline that have not settled yet, and the effects so
     far, the latest last *)
  objectURLs : list URL;
  created : nat;
  inflight : nat;
  effects : list Effect
}.

Definition initial : State :=
  mkState nil None "" false 0 false 0%float 0%float Audio.init None nil 0%nat 0%nat nil.




(** ** The monad of the handlers: state, and exceptions that leave the state
    as it is when they are thrown *)

Inductive Outcome (A : Type) : Type :=
| Ok (a : A)
| Thrown (error : string).
Arguments Ok {A} a.
Arguments Thrown {A} error.

Definition M (A : Type) : Type := State -> Outcome A * State.

Definition ret {A} (a : A) : M A := fun st => (Ok a, st).

Definition bind {A B} (m : M A) (k : A -> M B) : M B :=
  fun st =>
    match m st with
    | (Ok a, st') => k a st'
    | (Thrown e, st') => (Thrown e, st')
    end.

Definition throw {A} (e : string) : M A := fun st => (Thrown e, st).

(** [await] of a promise that the environment has settled. *)
Definition await {A} (settled : Outcome A) : M A := fun st => (settled, st).

Definition try_catch {A} (m : M A) (handler : string -> M A) : M A :=
  fun st =>
    match m st with
    | (Ok a, st') => (Ok a, st')
    | (Thrown e, st') => handler e st'
    end.

Definition try_finally {A} (m : M A) (final : M unit) : M A :=
  fun st =>
    match m st with
    | (r, st') =>
        match final st' with
        | (Ok _, st'') => (r, st'')
        | (Thrown e, st'') => (Thrown e, st'')
        end
    end.

Definition modify (f : State -> State) : M unit := fun st => (Ok tt, f st).
Definition gets {A} (f : State -> A) : M A := fun st => (Ok (f st), st).

Declare Scope handler_scope.
Delimit Scope handler_scope with handler.
Notation "x <- m ;; k" := (bind m (fun x => k))
  (at level 100, m at level 99, k at level 200, right associativity)
  : handler_scope.
Notation "m >> k" := (bind m (fun _ => k))
  (at level 100, k at level 200, right associativity) : handler_scope.

(** The state after a handler has run, and what it returned. *)
Definition state_after {A} (m : M A) (st : State) : State := snd (m st).
Definition result_of {A} (m : M A) (st : State) : Outcome A := fst (m st).

(** *** The setters *)

Definition emit (e : Effect) (st : State) : State :=
  mkState (files st) (selectedFile st) (transcript st) (isTranscribing st)
    (transcriptionProgress st) (isPlaying st) (duration st) (currentTime st)
    (audioRef st) (transciberRef st) (objectURLs st) (created st)
    (inflight st) (effects st ++ [e])%list.

Definition with_files (v : list AudioFile) (st : State) : State :=
  mkState v (selectedFile st) (transcript st) (isTranscribing st)
    (transcriptionProgress st) (isPlaying st) (duration st) (currentTime st)
    (audioRef st) (transciberRef st) (objectURLs st) (created st) (inflight st) (effects st).

Definition with_selectedFile (v : option AudioFile) (st : State) : State :=
  mkState (files st) v (transcript st) (isTranscribing st)
    (transcriptionProgress st) (isPlaying st) (duration st) (currentTime st)
    (audioRef st) (transciberRef st) (objectURLs st) (created st) (inflight st) (effects st).

Definition with_transcript (v : string) (st : State) : State :=
  mkState (files st) (selectedFile st) v (isTranscribing st)
    (transcriptionProgress st) (isPlaying st) (duration st) (currentTime st)
    (audioRef st) (transciberRef st) (objectURLs st) (created st) (inflight st) (effects st).

Definition with_isTranscribing (v : bool) (st : State) : State :=
  mkState (files st) (selectedFile st) (transcript st) v
    (transcriptionProgress st) (isPlaying st) (duration st) (currentTime st)
    (audioRef st) (transciberRef st) (objectURLs st) (created st) (inflight st) (effects st).

Definition with_transcriptionProgress (v : Z) (st : State) : State :=
  mkState (files st) (selectedFile st) (transcript st) (isTranscribing st)
    v (isPlaying st) (duration st) (currentTime st)
    (audioRef st) (transciberRef st) (objectURLs st) (created st) (inflight st) (effects st).

Definition with_isPlaying (v : bool) (st : State) : State :=
  mkState (files st) (selectedFile st) (transcript st) (isTranscribing st)
    (transcriptionProgress st) v (duration st) (currentTime st)
    (audioRef st) (transciberRef st) (objectURLs st) (created st) (inflight st) (effects st).

Definition with_duration (v : float) (st : State) : State :=
  mkState (files st) (selectedFile st) (transcript st) (isTranscribing st)
    (transcriptionProgress st) (isPlaying st) v (currentTime st)
    (audioRef st) (transciberRef st) (objectURLs st) (created st) (inflight st) (effects st).

Definition with_currentTime (v : float) (st : State) : State :=
  mkState (files st) (selectedFile st) (transcript st) (isTranscribing st)
    (transcriptionProgress st) (isPlaying st) (duration st) v
    (audioRef st) (transciberRef st) (objectURLs st) (created st) (inflight st) (effects st).

Definition with_audioRef (v : Audio.t) (st : State) : State :=
  mkState (files st) (selectedFile st) (transcript st) (isTranscribing st)
    (transcriptionProgress st) (isPlaying st) (duration st) (currentTime st)
    v (transciberRef st) (objectURLs st) (created st) (inflight st) (effects st).

Definition with_transciberRef (v : option Pipeline) (st : State) : State :=
  mkState (files st) (selectedFile st) (transcript st) (isTranscribing st)
    (transcriptionProgress st) (isPlaying st) (duration st) (currentTime st)
    (audioRef st) v (objectURLs st) (created st) (inflight st) (effects st).

Definition with_objectURLs (v : list URL) (n : nat) (st : State) : State :=
  mkState (files st) (selectedFile st) (transcript st) (isTranscribing st)
    (transcriptionProgress st) (isPlaying st) (duration st) (currentTime st)
    (audioRef st) (transciberRef st) v n (inflight st) (effects st).

Definition setFiles v : M unit := modify (with_files v).
Definition setSelectedFile v : M unit := modify (with_selectedFile v).
Definition setTranscript v : M unit := modify (with_transcript v).
Definition setIsTranscribing v : M unit := modify (with_isTranscribing v).
Definition setTranscriptionProgress v : M unit := modify (with_transcriptionProgress v).
Definition setIsPlaying v : M unit := modify (with_isPlaying v).
Definition setDuration v : M unit := modify (with_duration v).
Definition setCurrentTime v : M unit := modify (with_currentTime v).

(** *** The host operations *)

Definition console_error (msg : string) : M unit := modify (emit (ConsoleError msg)).

(** audioRef.current.pause() *)
Definition audio_pause : M unit :=
  modify (fun st =>
    let a := audioRef st in
    emit AudioPause
      (with_audioRef (Audio.mk true (Audio.src a) (Audio.currentTime a) (Audio.duration a)) st)).

(** audioRef.current.play(): the element starts, or it refuses (no source
    it can decode, playback not allowed) and stays as it is; [started] is
    which of the two.  A refusal shows only in the promise that [play]
    returns. *)
Definition audio_play (started : bool) : M unit :=
  modify (fun st =>
    let a := audioRef st in
    emit AudioPlay
      (with_audioRef
         (Audio.mk (if started then false else Audio.paused a) (Audio.src a)
            (Audio.currentTime a) (Audio.duration a)) st)).

(** audioRef.current.src = u; the loading that follows belongs to the
    element and shows in the events it fires later. *)
Definition audio_set_src (u : URL) : M unit :=
  modify (fun st =>
    let a := audioRef st in
    emit (AudioSetSrc u)
      (with_audioRef (Audio.mk (Audio.paused a) (Some u) (Audio.currentTime a) (Audio.duration a)) st)).

(** audioRef.current.currentTime = t.  The setter takes a finite number:
    on NaN and on the infinities it throws a TypeError and writes nothing.
    The element takes a finite value as the position to seek to. *)
Definition audio_set_currentTime (t : float) : M unit :=
  if PrimFloat.is_finite t
  then
    modify (fun st =>
      let a := audioRef st in
      emit (AudioSetCurrentTime t)
        (with_audioRef (Audio.mk (Audio.paused a) (Audio.src a) t (Audio.duration a)) st))
  else throw "TypeError".

(** URL.createObjectURL(fileData): a URL that stays live until revoked. *)
Definition createObjectURL (fileData : File) : M URL :=
  fun st =>
    let u := created st in
    (Ok u, emit (CreateObjectURL u)
             (with_objectURLs (objectURLs st ++ [u])%list (S (created st)) st)).

(** URL.revokeObjectURL(u) *)
Definition revokeObjectURL (u : URL) : M unit :=
  modify (fun st =>
    emit (RevokeObjectURL u)
      (with_objectURLs (List.filter (fun v => negb (Nat.eqb u v)) (objectURLs st))
         (created st) st)).

Definition with_inflight (n : nat) (st : State) : State :=
  mkState (files st) (selectedFile st) (transcript st) (isTranscribing st)
    (transcriptionProgress st) (isPlaying st) (duration st) (currentTime st)
    (audioRef st) (transciberRef st) (objectURLs st) (created st) n (effects st).

(** transciberRef.current(fileData): the call is made and its promise is
    pending until the environment settles it. *)
Definition call_pipeline (fileData : File) : M unit :=
  modify (fun st => emit (CallPipeline fileData) (with_inflight (S (inflight st)) st)).

Definition pipeline_settled : M unit :=
  modify (fun st => with_inflight (Nat.pred (inflight st)) st).

(** ** The handlers of the component *)

Section Component.

Variable UTC : Z -> Z.

Local Open Scope handler_scope.

(** The effect that loads the model at mount; [loaded] is how the promise
    of [pipeline(...)] settles. *)
Definition initTranscriber (loaded : Outcome Pipeline) : M unit :=
  try_catch
    (p <- await loaded ;;
     modify (with_transciberRef (Some p)))
    (fun error => console_error "Error initializing transcriber:").

(** The progress callback of the pipeline; [percent] is
    [Math.round(progress.progress * 100)]. *)
Definition progress_callback (status : string) (percent : Z) : M unit :=
  if String.eqb status "progress"
  then setTranscriptionProgress percent
  else ret tt.

(** The listeners on the audio element. *)
Definition handleTimeUpdate : M unit :=
  t <- gets (fun st => Audio.currentTime (audioRef st)) ;;
  setCurrentTime t.

Definition handleLoadedMetadata : M unit :=
  d <- gets (fun st => Audio.duration (audioRef st)) ;;
  setDuration d.

Definition handleEnded : M unit :=
  setIsPlaying false >>
  setCurrentTime 0%float.

(** [picked] is how [window.showDirectoryPicker()] settles: the directory,
    given by the enumeration of its entries, or the rejection when the user
    cancels. *)
Definition handleFolderSelect (picked : Outcome DirIter) : M unit :=
  try_catch
    (dirHandle <- await picked ;;
     audioFiles <- match scan_loop UTC dirHandle nil with
                   | inl l => ret l
                   | inr error => throw error
                   end ;;
     setFiles (array_sort by_date_desc audioFiles))
    (fun error => console_error "Error selecting folder:").

Definition not_initialized : string := "Error: Transcription model not initialized".

(** [transcribeAudio] up to its [await]: [true] when it has called the
    pipeline and is suspended on the answer. *)
Definition transcribeAudio_begin (fileData : File) : M bool :=
  transcriber <- gets transciberRef ;;
  match transcriber with
  | None =>
      setTranscript not_initialized >>
      ret false
  | Some _ =>
      setIsTranscribing true >>
      setTranscriptionProgress 0 >>
      setTranscript "" >>
      call_pipeline fileData >>
      ret true
  end.

(** [transcribeAudio] from its [await] on; [answer] is how the call of the
    pipeline settles, with the text of the result. *)
Definition transcribeAudio_resume (answer : Outcome string) : M unit :=
  try_finally
    (try_catch
       (text <- (pipeline_settled >> await answer) ;;
        setTranscript text)
       (fun error =>
          console_error "Transcription error:" >>
          setTranscript "Error transcribing file"))
    (setIsTranscribing false).

(** A whole run of [transcribeAudio]. *)
Definition transcribeAudio (fileData : File) (answer : Outcome string) : M unit :=
  suspended <- transcribeAudio_begin fileData ;;
  if suspended then transcribeAudio_resume answer else ret tt.

(** [got] is how [file.handle.getFile()] settles.  The call of
    [transcribeAudio] is not awaited: it runs up to its own [await].  The
    handler returns the closure that revokes the URL. *)
Definition handleFileSelect (file : AudioFile) (got : Outcome File)
  : M (option (M unit)) :=
  try_catch
    (fileData <- await got ;;
     audio_pause >>
     audioUrl <- createObjectURL fileData ;;
     audio_set_src audioUrl >>
     setSelectedFile (Some file) >>
     setIsPlaying false >>
     setCurrentTime 0%float >>
     transcribeAudio_begin fileData >>
     ret (Some (revokeObjectURL audioUrl)))
    (fun error =>
       console_error "Error loading audio file:" >>
       ret None).

(** onClick={() => handleFileSelect(file)}: what the handler returns is
    dropped. *)
Definition onClick_file (file : AudioFile) (got : Outcome File) : M unit :=
  handleFileSelect file got >>
  ret tt.

(** The promise of [play()] is dropped: whether the element started or
    not, isPlaying is set to the negation of what it was. *)
Definition togglePlayPause (started : bool) : M unit :=
  playing <- gets isPlaying ;;
  (if playing then audio_pause else audio_play started) >>
  setIsPlaying (negb playing).

(** [value[0]] of an empty array is [undefined], which is not a number: the
    setter of the element throws a TypeError on it, as it does on a first
    element that is not finite, and [setCurrentTime] is not reached. *)
Definition handleSeek (value : list float) : M unit :=
  match value !! 0%nat with
  | Some newTime =>
      audio_set_currentTime newTime >>
      setCurrentTime newTime
  | None => throw "TypeError"
  end.

(** ** The grouping derivation *)

Definition month_key (file : AudioFile) : string :=
  year file ++ "-" ++ month file.

(** The object [acc]: a map from the year to a map from the year-month key
    to an array.  A finite map has own keys only: it is the object of the
    source as long as no key names a member of [Object.prototype], which is
    so when the years are strings of digits, as [20YY], and the month keys
    [20YY-MM]. *)
Definition group_step (acc : gmap string (gmap string (list AudioFile)))
    (file : AudioFile) : gmap string (gmap string (list AudioFile)) :=
  let yearKey := year file in
  let monthKey := month_key file in
  let acc1 :=
    match acc !! yearKey with
    | None => <[yearKey := ∅]> acc
    | Some _ => acc
    end in
  let months := default ∅ (acc1 !! yearKey) in
  let months1 :=
    match months !! monthKey with
    | None => <[monthKey := nil]> months
    | Some _ => months
    end in
  let bucket := default nil (months1 !! monthKey) in
  <[yearKey := <[monthKey := (bucket ++ [file])%list]> months1]> acc1.

Definition groupedFiles (fs : list AudioFile)
  : gmap string (gmap string (list AudioFile)) :=
  foldl group_step ∅ fs.

(** ** The component as a transition system *)

Inductive Event : Type :=
| EvInit (loaded : Outcome Pipeline)
| EvProgress (status : string) (percent : Z)
| EvFolderSelect (picked : Outcome DirIter)
| EvFileSelect (file : AudioFile) (got : Outcome File)
| EvTranscribed (answer : Outcome string)
| EvTogglePlayPause (started : bool)
| EvSeek (value : list float)
| EvTimeUpdate (t : float)
| EvLoadedMetadata (d : float)
| EvEnded.

(** The element moves on by itself; its listeners then run. *)
Definition audio_advance (t : float) : M unit :=
  modify (fun st =>
    let a := audioRef st in
    with_audioRef (Audio.mk (Audio.paused a) (Audio.src a) t (Audio.duration a)) st).

Definition audio_metadata (d : float) : M unit :=
  modify (fun st =>
    let a := audioRef st in
    with_audioRef (Audio.mk (Audio.paused a) (Audio.src a) (Audio.currentTime a) d) st).

Definition audio_ended : M unit :=
  modify (fun st =>
    let a := audioRef st in
    with_audioRef (Audio.mk true (Audio.src a) (Audio.currentTime a) (Audio.duration a)) st).

Definition handler (ev : Event) : M unit :=
  match ev with
  | EvInit loaded => initTranscriber loaded
  | EvProgress status percent => progress_callback status percent
  | EvFolderSelect picked => handleFolderSelect picked
  | EvFileSelect file got => onClick_file file got
  | EvTranscribed answer => transcribeAudio_resume answer
  | EvTogglePlayPause started => togglePlayPause started
  | EvSeek value => handleSeek value
  | EvTimeUpdate t => audio_advance t >> handleTimeUpdate
  | EvLoadedMetadata d => audio_metadata d >> handleLoadedMetadata
  | EvEnded => audio_ended >> handleEnded
  end.

Definition step (ev : Event) (st : State) : State := state_after (handler ev) st.

Definition run (evs : list Event) (st : State) : State :=
  foldl (fun s ev => step ev s) st evs.

(** What the view lets happen: a card exists for each listed file, the
    transport only while a file is selected, and an answer of the pipeline
    only for a call that is pending. *)
Definition enabled (ev : Event) (st : State) : Prop :=
  match ev with
  | EvFileSelect file _ => In file (files st)
  | EvTranscribed _ => (0 < inflight st)%nat
  | EvTogglePlayPause _ | EvSeek _ => selectedFile st <> None
  | _ => True
  end.

Inductive reachable : State -> Prop :=
| reachable_initial : reachable initial
| reachable_step st ev :
    reachable st -> enabled ev st -> reachable (step ev st).

End Component.

(** * The vocabulary of the specification *)

(** A string of decimal digits. *)
Fixpoint digits (s : string) : bool :=
  match s with
  | EmptyString => true
  | String c s' => Regex.is_digit c && digits s'
  end.

(** The names [YYMMDD_HHMM.mp3]: six digits, an underscore, four digits and
    the extension, and nothing else. *)
Definition recording_name (s : string) : Prop :=
  exists d t : string,
    s = d ++ "_" ++ t ++ ".mp3" /\
    String.length d = 6%nat /\ String.length t = 4%nat /\
    digits d = true /\ digits t = true.

(** The names in which such a name occurs somewhere. *)
Definition contains_recording_name (s : string) : Prop :=
  exists pre core post : string,
    s = pre ++ core ++ post /\ recording_name core.

(** Newest first: no file is followed by a newer one. *)
Definition newest_first (l : list AudioFile) : Prop :=
  StronglySorted (fun a b => fullDate b <= fullDate a) l.

(** The entries the scanner keeps, as descriptors, in the order of the
    enumeration. *)
Definition kept (UTC : Z -> Z) (entries : list Entry) : list AudioFile :=
  foldl (scan_entry UTC) nil entries.

(** A scan fails when the picker rejects or the enumeration throws. *)
Definition scan_fails (picked : Outcome DirIter) : Prop :=
  match picked with
  | Ok it => iter_throws it = true
  | Thrown _ => True
  end.

(** The event that runs the scanner. *)
Definition is_folder_select (ev : Event) : bool :=
  match ev with
  | EvFolderSelect _ => true
  | _ => false
  end.

(** The bucket of a year and a year-month key, when there is one. *)
Definition bucket_of (g : gmap string (gmap string (list AudioFile)))
    (y mk : string) : option (list AudioFile) :=
  match g !! y with
  | Some months => months !! mk
  | None => None
  end.

(** All the values of a map, each unfolded into files. *)
Definition gather {V : Type} (f : V -> list AudioFile) (m : gmap string V)
  : list AudioFile :=
  map_to_list m ≫= (fun kv => f kv.2).

(** The files of all the buckets of all the years. *)
Definition all_files (g : gmap string (gmap string (list AudioFile)))
  : list AudioFile :=
  gather (gather (fun l => l)) g.

(** The files that belong to the bucket of a year and a year-month key. *)
Definition in_bucket (y mk : string) (f : AudioFile) : Prop :=
  year f = y /\ month_key f = mk.

(** A bucket is created by the first file that is pushed on it. *)
Definition nonempty (l : list AudioFile) : option (list AudioFile) :=
  match l with
  | nil => None
  | _ => Some l
  end.

(** ** Sample data: a browser in the UTC zone and the folder of the
    scenario of the specification *)

Definition utc_zone : Z -> Z := fun t => t.

Definition sample_entries : list Entry :=
  [ mkEntry KindFile "240101_0900.mp3";
    mkEntry KindFile "bad.mp3";
    mkEntry KindFile "231231_2359.mp3" ].

Definition file_240101 : AudioFile :=
  mkAudioFile "240101_0900.mp3" (mkEntry KindFile "240101_0900.mp3")
    "2024" "01" "01" "09:00" 1704099600000.

Definition file_231231 : AudioFile :=
  mkAudioFile "231231_2359.mp3" (mkEntry KindFile "231231_2359.mp3")
    "2023" "12" "31" "23:59" 1704067140000.

(** The component after the folder has been scanned. *)
Definition sample_listing : State :=
  step utc_zone (EvFolderSelect (Ok (iter_of_list sample_entries))) initial.

(** The first file is selected and its metadata have arrived: it lasts two
    minutes. *)
Definition sample_playing : State :=
  run utc_zone
    [ EvFileSelect file_240101 (Ok (mkFile "240101_0900.mp3"));
      EvLoadedMetadata 120%float;
      EvTogglePlayPause true ]
    sample_listing.

(** The effect that binds a source to the audio element. *)
Definition is_set_src (e : Effect) : bool :=
  match e with
  | AudioSetSrc _ => true
  | _ => false
  end.

(** ** Further vocabulary: the scanner, the calendar, the transport *)

(** The test of the scanner on an entry: a file whose name passes the
    anchored pattern. *)
Definition accepts (e : Entry) : bool :=
  match kind e, Regex.str_match scan_re (entry_name e) with
  | KindFile, Some _ => true
  | _, _ => false
  end.

(** The descriptor of an entry, read off its name by position. *)
Definition descriptor (UTC : Z -> Z) (e : Entry) : AudioFile :=
  let n := entry_name e in
  {| name := n;
     handle := e;
     year := "20" ++ substring 0 2 n;
     month := substring 2 2 n;
     day := substring 4 2 n;
     time := substring 7 2 n ++ ":" ++ substring 9 2 n;
     fullDate :=
       new_Date UTC ("20" ++ substring 0 2 n) (parseInt (substring 2 2 n) - 1)
         (substring 4 2 n) (substring 7 2 n) (substring 9 2 n) |}.

(** The files of a list that show a given instant. *)
Definition dated (k : Z) (l : list AudioFile) : list AudioFile :=
  List.filter (fun f => fullDate f =? k) l.

(** The number of days of month [mn] (0 to 11). *)
Definition DaysInMonth (leap : bool) (mn : Z) : Z :=
  match mn with
  | 1 => if leap then 29 else 28
  | 3 | 5 | 8 | 10 => 30
  | _ => 31
  end.

(** The fields of a date of the calendar: year, month index, day, hours and
    minutes. *)
Record Fields : Type := mkFields {
  f_year : Z;
  f_month : Z;
  f_day : Z;
  f_hour : Z;
  f_min : Z
}.

Definition valid_fields (t : Fields) : Prop :=
  2000 <= f_year t <= 2099 /\
  0 <= f_month t <= 11 /\
  1 <= f_day t <= DaysInMonth (JSDate.InLeapYear (f_year t)) (f_month t) /\
  0 <= f_hour t <= 23 /\
  0 <= f_min t <= 59.

(** The order of the calendar on fields. *)
Definition fields_before (a b : Fields) : Prop :=
  f_year a < f_year b \/
  (f_year a = f_year b /\
   (f_month a < f_month b \/
    (f_month a = f_month b /\
     (f_day a < f_day b \/
      (f_day a = f_day b /\
       (f_hour a < f_hour b \/
        (f_hour a = f_hour b /\ f_min a < f_min b))))))).

Definition time_of (t : Fields) : Z :=
  JSDate.local_time (f_year t) (f_month t) (f_day t) (f_hour t) (f_min t).

(** The fields that the parser hands to the date constructor for a name. *)
Definition name_fields (n : string) : Fields :=
  mkFields (ToNumber ("20" ++ substring 0 2 n)) (parseInt (substring 2 2 n) - 1)
    (ToNumber (substring 4 2 n)) (ToNumber (substring 7 2 n))
    (ToNumber (substring 9 2 n)).

(** The names of the members of [Object.prototype], which every plain
    object inherits. *)
Definition object_prototype_names : list string :=
  [ "constructor"; "__proto__"; "hasOwnProperty"; "isPrototypeOf";
    "propertyIsEnumerable"; "toLocaleString"; "toString"; "valueOf";
    "__defineGetter__"; "__defineSetter__"; "__lookupGetter__";
    "__lookupSetter__" ].

(** Whether a key names an inherited member of a plain object. *)
Definition inherited (k : string) : bool :=
  existsb (String.eqb k) object_prototype_names.

(** The calls of the component on the transport of the element. *)
Definition is_transport (e : Effect) : bool :=
  match e with
  | AudioPlay | AudioPause => true
  | _ => false
  end.

(** Whether the last call of the component on the transport of the element
    was [play()]. *)
Definition asked_to_play (effects : list Effect) : bool :=
  match last (List.filter is_transport effects) with
  | Some AudioPlay => true
  | _ => false
  end.

(** The pipeline is loaded, the first file is selected and its transcription
    is on its way. *)
Definition sample_transcribing : State :=
  run utc_zone
    [ EvInit (Ok WhisperSmall);
      EvFileSelect file_240101 (Ok (mkFile "240101_0900.mp3")) ]
    sample_listing.

#[local] Instance in_bucket_dec y mk f : Decision (in_bucket y mk f).
Proof. unfold in_bucket. apply _. Defined.

#[local] Instance Z_ge_antisymm : AntiSymm (=) (fun a b : Z => b <= a).
Proof. intros a b H1 H2. lia. Qed.

(** * Tactics *)

Local Arguments Ascii.eqb : simpl never.

Ltac eat_digit H c :=
  match type of H with
  | context [match ?s with EmptyString => _ | String _ _ => _ end] =>
      destruct s as [|c s]; cbn in H; [discriminate H|];
      let E := fresh "D" c in
      destruct (Regex.is_digit c) eqn:E; cbn in H; [|discriminate H]
  end.

Ltac eat_lit H c :=
  match type of H with
  | context [match ?s with EmptyString => _ | String _ _ => _ end] =>
      destruct s as [|c s]; cbn in H; [discriminate H|];
      let E := fresh "L" c in
      match type of H with
      | context [Ascii.eqb ?a c] =>
          destruct (Ascii.eqb a c) eqn:E; cbn in H; [|discriminate H];
          apply Ascii.eqb_eq in E; subst c
      end
  end.

(** Runs a match on a name whose characters are known to be digits. *)
Ltac run_match :=
  repeat (cbn;
          first [ rewrite Ascii.eqb_refl
                | match goal with
                  | H : Regex.is_digit _ = true |- _ => rewrite H
                  end ]).

Local Arguments Regex.consumed : simpl never.

(** Unfolds a handler down to the state it builds. *)
Ltac run_handler :=
  unfold step, state_after, result_of, handler, onClick_file, handleFileSelect,
    transcribeAudio, transcribeAudio_begin, transcribeAudio_resume,
    initTranscriber, progress_callback, handleTimeUpdate,
    handleLoadedMetadata, handleEnded, togglePlayPause, handleSeek,
    audio_advance, audio_metadata, audio_ended in *;
  unfold setFiles, setSelectedFile, setTranscript, setIsTranscribing,
    setTranscriptionProgress, setIsPlaying, setDuration, setCurrentTime,
    console_error, audio_pause, audio_play, audio_set_src,
    audio_set_currentTime, createObjectURL, revokeObjectURL, call_pipeline,
    pipeline_settled in *;
  unfold try_catch, try_finally, bind, ret, throw, await, gets, modify in *;
  cbn in *.

(** * Lemmas *)

Example parse_example :
  parseFileName (fun t => t) "240315_1430.mp3"
  = Some (mkDateInfo "2024" "03" "15" "14:30" 1710513000000).
Proof. reflexivity. Qed.

(** ** File names *)

Lemma recording_name_chars (s : string) :
  recording_name s <->
  exists c1 c2 c3 c4 c5 c6 c7 c8 c9 c10 : ascii,
    s = String c1 (String c2 (String c3 (String c4 (String c5 (String c6
          (String "_" (String c7 (String c8 (String c9 (String c10
             ".mp3")))))))))) /\
    digits (String c1 (String c2 (String c3 (String c4 (String c5 (String c6
              (String c7 (String c8 (String c9 (String c10 ""))))))))))
    = true.
Proof.
  split.
  - intros (d & t & -> & Hd & Ht & Dd & Dt).
    destruct d as [|c1 [|c2 [|c3 [|c4 [|c5 [|c6 [|? ?]]]]]]]; try discriminate Hd.
    destruct t as [|c7 [|c8 [|c9 [|c10 [|? ?]]]]]; try discriminate Ht.
    exists c1, c2, c3, c4, c5, c6, c7, c8, c9, c10. split; [reflexivity|].
    cbn in Dd, Dt |- *.
    repeat match goal with
           | H : _ && _ = true |- _ => apply andb_prop in H; destruct H
           end.
    repeat match goal with H : Regex.is_digit _ = true |- _ => rewrite H; clear H end.
    reflexivity.
  - intros (c1 & c2 & c3 & c4 & c5 & c6 & c7 & c8 & c9 & c10 & -> & D).
    exists (String c1 (String c2 (String c3 (String c4 (String c5 (String c6 "")))))),
           (String c7 (String c8 (String c9 (String c10 "")))).
    cbn in D |- *.
    repeat match goal with
           | H : _ && _ = true |- _ => apply andb_prop in H; destruct H
           end.
    repeat match goal with H : Regex.is_digit _ = true |- _ => rewrite H; clear H end.
    repeat split; reflexivity.
Qed.

(** The test of the scanner accepts exactly the recording names. *)
Lemma scan_re_matches (s : string) :
  Regex.str_match scan_re s <> None <-> recording_name s.
Proof.
  rewrite recording_name_chars. split.
  - intros H. destruct (Regex.str_match scan_re s) as [m|] eqn:E; [clear H|congruence].
    cbn in E. unfold Regex.match_at in E. cbn in E.
    eat_digit E c1. eat_digit E c2. eat_digit E c3. eat_digit E c4.
    eat_digit E c5. eat_digit E c6. eat_lit E u. eat_digit E c7.
    eat_digit E c8. eat_digit E c9. eat_digit E c10.
    eat_lit E l1. eat_lit E l2. eat_lit E l3. eat_lit E l4.
    destruct s; cbn in E; [|discriminate E].
    exists c1, c2, c3, c4, c5, c6, c7, c8, c9, c10. split; [reflexivity|].
    cbn. rewrite Dc1, Dc2, Dc3, Dc4, Dc5, Dc6, Dc7, Dc8, Dc9, Dc10. reflexivity.
  - intros (c1 & c2 & c3 & c4 & c5 & c6 & c7 & c8 & c9 & c10 & -> & D).
    cbn in D.
    repeat match goal with
           | H : _ && _ = true |- _ => apply andb_prop in H; destruct H
           end.
    cbn. unfold Regex.match_at. run_match. discriminate.
Qed.

(** Where the pattern of the parser matches, a recording name starts, and
    the match has the whole text and the five captures. *)
Lemma parse_match_at_shape (s : string) (m : list string) :
  Regex.match_at parse_re s = Some m ->
  (exists core rest, s = core ++ rest /\ recording_name core) /\
  length m = 6%nat.
Proof.
  intros E. unfold Regex.match_at in E. cbn in E.
  eat_digit E c1. eat_digit E c2. eat_digit E c3. eat_digit E c4.
  eat_digit E c5. eat_digit E c6. eat_lit E u. eat_digit E c7.
  eat_digit E c8. eat_digit E c9. eat_digit E c10.
  eat_lit E l1. eat_lit E l2. eat_lit E l3. eat_lit E l4.
  injection E as <-. split; [|reflexivity].
  exists (String c1 (String c2 (String c3 (String c4 (String c5 (String c6
            (String "_" (String c7 (String c8 (String c9 (String c10
               ".mp3"))))))))))), s.
  split; [reflexivity|].
  apply recording_name_chars.
  exists c1, c2, c3, c4, c5, c6, c7, c8, c9, c10. split; [reflexivity|].
  cbn. rewrite Dc1, Dc2, Dc3, Dc4, Dc5, Dc6, Dc7, Dc8, Dc9, Dc10. reflexivity.
Qed.

Lemma parse_match_at_complete (core rest : string) :
  recording_name core -> Regex.match_at parse_re (core ++ rest) <> None.
Proof.
  intros H. apply recording_name_chars in H.
  destruct H as (c1 & c2 & c3 & c4 & c5 & c6 & c7 & c8 & c9 & c10 & -> & D).
  cbn in D.
  repeat match goal with
         | H : _ && _ = true |- _ => apply andb_prop in H; destruct H
         end.
  cbv [String.append]. unfold Regex.match_at. run_match. discriminate.
Qed.

Lemma search_sound (s : string) (m : list string) :
  Regex.search parse_re s = Some m ->
  contains_recording_name s /\ length m = 6%nat.
Proof.
  revert m. induction s as [|c s IH]; intros m E.
  - cbn [Regex.search] in E.
    destruct (Regex.match_at parse_re "") eqn:E0; [|discriminate E].
    injection E as <-. apply parse_match_at_shape in E0.
    destruct E0 as [(core & rest & Hs & Hc) Hl]. split; [|exact Hl].
    exists "", core, rest. split; [exact Hs|exact Hc].
  - cbn [Regex.search] in E.
    destruct (Regex.match_at parse_re (String c s)) eqn:E0.
    + injection E as <-. apply parse_match_at_shape in E0.
      destruct E0 as [(core & rest & Hs & Hc) Hl]. split; [|exact Hl].
      exists "", core, rest. split; [exact Hs|exact Hc].
    + destruct (IH m E) as [(pre & core & post & Hs & Hc) Hl]. split; [|exact Hl].
      exists (String c pre), core, post. split; [|exact Hc].
      rewrite Hs. reflexivity.
Qed.

Lemma search_complete (pre core post : string) :
  recording_name core ->
  Regex.search parse_re (pre ++ core ++ post) <> None.
Proof.
  intros Hc. induction pre as [|c pre IH].
  - change ("" ++ core ++ post) with (core ++ post).
    pose proof (parse_match_at_complete core post Hc) as H.
    destruct (core ++ post) as [|a r] eqn:Es; cbn [Regex.search];
      destruct (Regex.match_at parse_re _); congruence.
  - change (String c pre ++ core ++ post) with (String c (pre ++ core ++ post)).
    cbn [Regex.search].
    destruct (Regex.match_at parse_re _); [discriminate|exact IH].
Qed.

(** The parser answers exactly on the names in which a recording name
    occurs, whatever stands before and after it. *)
Lemma parseFileName_some_iff (UTC : Z -> Z) (filename : string) :
  parseFileName UTC filename <> None <-> contains_recording_name filename.
Proof.
  unfold parseFileName, Regex.str_match. cbn [Regex.anchor_start parse_re].
  split.
  - intros H. destruct (Regex.search parse_re filename) as [m|] eqn:E; [|congruence].
    apply (search_sound _ _ E).
  - intros (pre & core & post & -> & Hc).
    pose proof (search_complete pre core post Hc) as H.
    destruct (Regex.search parse_re _) as [m|] eqn:E; [|congruence].
    destruct (search_sound _ _ E) as [_ Hl].
    destruct m as [|? [|? [|? [|? [|? [|? [|? ?]]]]]]]; try discriminate Hl.
    discriminate.
Qed.

(** What the parser returns on a recording name. *)
Lemma parseFileName_recording (UTC : Z -> Z) (c1 c2 c3 c4 c5 c6 c7 c8 c9 c10 : ascii) :
  digits (String c1 (String c2 (String c3 (String c4 (String c5 (String c6
            (String c7 (String c8 (String c9 (String c10 ""))))))))))
  = true ->
  parseFileName UTC
    (String c1 (String c2 (String c3 (String c4 (String c5 (String c6
       (String "_" (String c7 (String c8 (String c9 (String c10
          ".mp3")))))))))))
  = Some {| di_year := String "2" (String "0" (String c1 (String c2 "")));
            di_month := String c3 (String c4 "");
            di_day := String c5 (String c6 "");
            di_time := String c7 (String c8 (String ":" (String c9 (String c10 ""))));
            di_fullDate :=
              new_Date UTC (String "2" (String "0" (String c1 (String c2 ""))))
                (parseInt (String c3 (String c4 "")) - 1)
                (String c5 (String c6 "")) (String c7 (String c8 ""))
                (String c9 (String c10 "")) |}.
Proof.
  intros D. cbn in D.
  repeat match goal with
         | H : _ && _ = true |- _ => apply andb_prop in H; destruct H
         end.
  unfold parseFileName, Regex.str_match. cbn [Regex.anchor_start parse_re].
  cbn [Regex.search]. unfold Regex.match_at. run_match.
  reflexivity.
Qed.

(** ** Sorting *)

Lemma sort_insert_perm {A} (cmp : A -> A -> Z) (x : A) (l : list A) :
  Permutation (sort_insert cmp x l) (x :: l).
Proof.
  induction l as [|y l IH]; cbn; [reflexivity|].
  destruct (cmp x y <=? 0); [reflexivity|].
  rewrite IH. apply perm_swap.
Qed.

Lemma array_sort_perm {A} (cmp : A -> A -> Z) (l : list A) :
  Permutation (array_sort cmp l) l.
Proof.
  induction l as [|x l IH]; cbn; [reflexivity|].
  rewrite sort_insert_perm. now rewrite IH.
Qed.

Lemma sort_insert_newest_first (x : AudioFile) (l : list AudioFile) :
  newest_first l -> newest_first (sort_insert by_date_desc x l).
Proof.
  unfold newest_first. induction 1 as [|y l Hs IH Hall]; cbn.
  - constructor; constructor.
  - unfold by_date_desc at 1.
    destruct (fullDate y - fullDate x <=? 0) eqn:E.
    + apply Z.leb_le in E. constructor; [constructor; assumption|].
      constructor; [lia|].
      eapply Forall_impl; [exact Hall|]. cbn. intros; lia.
    + apply Z.leb_gt in E. constructor; [exact IH|].
      rewrite sort_insert_perm. constructor; [lia|exact Hall].
Qed.

Lemma array_sort_newest_first (l : list AudioFile) :
  newest_first (array_sort by_date_desc l).
Proof.
  induction l as [|x l IH]; cbn.
  - constructor.
  - apply sort_insert_newest_first, IH.
Qed.

(** ** The scanner *)

Lemma scan_loop_ok (UTC : Z -> Z) (it : DirIter) (acc : list AudioFile) :
  iter_throws it = false ->
  scan_loop UTC it acc = inl (foldl (scan_entry UTC) acc (iter_entries it)).
Proof.
  revert acc. induction it as [|e rest IH|err]; intros acc H; cbn in *.
  - reflexivity.
  - apply IH, H.
  - discriminate H.
Qed.

Lemma scan_loop_throws (UTC : Z -> Z) (it : DirIter) (acc : list AudioFile) :
  iter_throws it = true -> exists error, scan_loop UTC it acc = inr error.
Proof.
  revert acc. induction it as [|e rest IH|err]; intros acc H; cbn in *.
  - discriminate H.
  - apply IH, H.
  - eauto.
Qed.

Lemma handleFolderSelect_ok (UTC : Z -> Z) (it : DirIter) (st : State) :
  iter_throws it = false ->
  handleFolderSelect UTC (Ok it) st
  = (Ok tt, with_files (array_sort by_date_desc (kept UTC (iter_entries it))) st).
Proof.
  intros H. unfold handleFolderSelect, try_catch, bind, await.
  rewrite (scan_loop_ok UTC it nil H). reflexivity.
Qed.

Lemma handleFolderSelect_fails (UTC : Z -> Z) (picked : Outcome DirIter) (st : State) :
  scan_fails picked ->
  handleFolderSelect UTC picked st
  = (Ok tt, emit (ConsoleError "Error selecting folder:") st).
Proof.
  intros H. unfold handleFolderSelect, try_catch, bind, await.
  destruct picked as [it|err]; cbn in H.
  - destruct (scan_loop_throws UTC it nil H) as [error ->]. reflexivity.
  - reflexivity.
Qed.

Lemma scan_entry_names (UTC : Z -> Z) (acc : list AudioFile) (e : Entry) :
  Forall (fun f => recording_name (name f)) acc ->
  Forall (fun f => recording_name (name f)) (scan_entry UTC acc e).
Proof.
  intros H. unfold scan_entry.
  destruct (kind e); [|exact H].
  destruct (Regex.str_match scan_re (entry_name e)) eqn:E; [|exact H].
  destruct (parseFileName UTC (entry_name e)); [|exact H].
  apply Forall_app. split; [exact H|].
  constructor; [|constructor]. cbn.
  apply scan_re_matches. congruence.
Qed.

Lemma kept_names (UTC : Z -> Z) (entries : list Entry) :
  Forall (fun f => recording_name (name f)) (kept UTC entries).
Proof.
  unfold kept.
  assert (G : forall acc, Forall (fun f => recording_name (name f)) acc ->
            Forall (fun f => recording_name (name f)) (foldl (scan_entry UTC) acc entries)).
  { induction entries as [|e l IH]; intros acc H; cbn; [exact H|].
    apply IH, scan_entry_names, H. }
  apply G. constructor.
Qed.

(** ** Invariants of the component *)

(** Only the scanner writes the file list. *)
Lemma step_files (UTC : Z -> Z) (ev : Event) (st : State) :
  is_folder_select ev = false -> files (step UTC ev st) = files st.
Proof.
  intros H. destruct ev; try discriminate H; run_handler;
    repeat (case_match; simplify_eq/=); reflexivity.
Qed.

Lemma step_folder_files (UTC : Z -> Z) (picked : Outcome DirIter) (st : State) :
  files (step UTC (EvFolderSelect picked) st) = files st \/
  exists entries,
    files (step UTC (EvFolderSelect picked) st)
    = array_sort by_date_desc (kept UTC entries).
Proof.
  unfold step, state_after, handler.
  destruct picked as [it|err].
  - destruct (iter_throws it) eqn:E.
    + left. rewrite handleFolderSelect_fails; [reflexivity|exact E].
    + right. exists (iter_entries it). rewrite handleFolderSelect_ok; [reflexivity|exact E].
  - left. rewrite handleFolderSelect_fails; [reflexivity|exact I].
Qed.

(** Every listed file has a recording name. *)
Lemma reachable_names (UTC : Z -> Z) (st : State) :
  reachable UTC st -> Forall (fun f => recording_name (name f)) (files st).
Proof.
  induction 1 as [|st ev Hr IH Hen].
  - constructor.
  - destruct (is_folder_select ev) eqn:E.
    + destruct ev; try discriminate E.
      destruct (step_folder_files UTC picked st) as [-> | [entries ->]]; [exact IH|].
      eapply Permutation_Forall; [symmetry; apply array_sort_perm|].
      apply kept_names.
    + rewrite step_files; [exact IH|exact E].
Qed.

(** The reference to the pipeline is written once it is loaded and never
    cleared. *)
Lemma step_transciberRef (UTC : Z -> Z) (ev : Event) (st : State) :
  transciberRef (step UTC ev st) = None -> transciberRef st = None.
Proof.
  destruct (is_folder_select ev) eqn:E.
  - destruct ev; try discriminate E.
    unfold step, state_after, handler.
    destruct picked as [it|err]; [destruct (iter_throws it) eqn:Et|].
    + rewrite handleFolderSelect_fails; [trivial|exact Et].
    + rewrite handleFolderSelect_ok; [trivial|exact Et].
    + rewrite handleFolderSelect_fails; [trivial|exact I].
  - destruct ev; try discriminate E; run_handler;
      repeat (case_match; simplify_eq/=); congruence.
Qed.

(** While the pipeline is not loaded, no transcription has started. *)
Lemma reachable_not_transcribing (UTC : Z -> Z) (st : State) :
  reachable UTC st -> transciberRef st = None -> isTranscribing st = false.
Proof.
  induction 1 as [|st ev Hr IH Hen]; [reflexivity|].
  intros Hn. pose proof (step_transciberRef UTC ev st Hn) as Hn0.
  specialize (IH Hn0). revert Hn.
  destruct (is_folder_select ev) eqn:E.
  - destruct ev; try discriminate E.
    unfold step, state_after, handler.
    destruct picked as [it|err]; [destruct (iter_throws it) eqn:Et|].
    + rewrite handleFolderSelect_fails; [intros _; exact IH|exact Et].
    + rewrite handleFolderSelect_ok; [intros _; exact IH|exact Et].
    + rewrite handleFolderSelect_fails; [intros _; exact IH|exact I].
  - destruct ev; try discriminate E; run_handler;
      repeat (case_match; simplify_eq/=); intros; congruence.
Qed.

(** No handler revokes a URL: all the URLs ever created stay live. *)
Lemma reachable_urls (UTC : Z -> Z) (st : State) :
  reachable UTC st -> objectURLs st = seq 0 (created st).
Proof.
  induction 1 as [|st ev Hr IH Hen]; [reflexivity|].
  destruct (is_folder_select ev) eqn:E.
  - destruct ev; try discriminate E.
    unfold step, state_after, handler.
    destruct picked as [it|err]; [destruct (iter_throws it) eqn:Et|].
    + rewrite handleFolderSelect_fails; [exact IH|exact Et].
    + rewrite handleFolderSelect_ok; [exact IH|exact Et].
    + rewrite handleFolderSelect_fails; [exact IH|exact I].
  - destruct ev; try discriminate E; run_handler;
      repeat (case_match; simplify_eq/=); try exact IH.
    all: change (0%nat :: seq 1 (created st)) with (seq 0 (S (created st)));
      rewrite IH, seq_S; reflexivity.
Qed.

(** ** Grouping *)

Lemma gather_empty {V} (f : V -> list AudioFile) : gather f ∅ = nil.
Proof. unfold gather. now rewrite map_to_list_empty. Qed.

Lemma gather_insert {V} (f : V -> list AudioFile) (m : gmap string V) k v :
  gather f (<[k:=v]> m) ≡ₚ (f v ++ gather f (delete k m))%list.
Proof.
  unfold gather. rewrite <- insert_delete_eq.
  rewrite map_to_list_insert by apply lookup_delete_eq.
  reflexivity.
Qed.

Lemma gather_lookup {V} (f : V -> list AudioFile) (m : gmap string V) k v :
  m !! k = Some v -> gather f m ≡ₚ (f v ++ gather f (delete k m))%list.
Proof.
  intros H. rewrite <- (insert_id m k v H) at 1. apply gather_insert.
Qed.

Lemma gather_fresh {V} (f : V -> list AudioFile) (m : gmap string V) k v :
  m !! k = None -> gather f (<[k:=v]> m) ≡ₚ (f v ++ gather f m)%list.
Proof.
  intros H. rewrite gather_insert, delete_id by exact H. reflexivity.
Qed.

Lemma group_step_eq acc file :
  group_step acc file
  = <[year file :=
        <[month_key file :=
            (default nil (bucket_of acc (year file) (month_key file)) ++ [file])%list]>
          (default ∅ (acc !! year file))]> acc.
Proof.
  unfold group_step, bucket_of.
  destruct (acc !! year file) as [months|] eqn:Ey.
  - rewrite Ey. simpl.
    destruct (months !! month_key file) as [b|] eqn:Em.
    + rewrite Em. simpl. reflexivity.
    + rewrite lookup_insert_eq. simpl.
      rewrite insert_insert_eq. reflexivity.
  - rewrite lookup_insert_eq. simpl.
    rewrite lookup_empty, lookup_insert_eq. simpl.
    rewrite !insert_insert_eq. reflexivity.
Qed.

Lemma group_step_bucket acc file y mk :
  bucket_of (group_step acc file) y mk
  = if decide (in_bucket y mk file)
    then Some (default nil (bucket_of acc y mk) ++ [file])%list
    else bucket_of acc y mk.
Proof.
  rewrite group_step_eq. unfold bucket_of at 1. unfold in_bucket.
  case_decide as Hd.
  - destruct Hd as [<- <-]. rewrite !lookup_insert_eq. reflexivity.
  - destruct (decide (year file = y)) as [<-|Hy].
    + rewrite lookup_insert_eq.
      rewrite lookup_insert_ne by (intros E; apply Hd; split; [reflexivity|exact E]).
      unfold bucket_of. destruct (acc !! year file); [reflexivity|apply lookup_empty].
    + rewrite lookup_insert_ne by exact Hy. reflexivity.
Qed.

Lemma group_step_all_files acc file :
  all_files (group_step acc file) ≡ₚ (all_files acc ++ [file])%list.
Proof.
  rewrite group_step_eq. unfold all_files, bucket_of.
  rewrite gather_insert, gather_insert.
  destruct (acc !! year file) as [months|] eqn:Ey; simpl.
  - rewrite (gather_lookup _ acc _ _ Ey).
    destruct (months !! month_key file) as [b|] eqn:Em; simpl.
    + rewrite (gather_lookup _ months _ _ Em).
      rewrite <- !app_assoc. apply Permutation_app_head.
      rewrite (Permutation_app_comm [file]), <- !app_assoc. reflexivity.
    + rewrite (delete_id months) by exact Em.
      cbn [app]. rewrite <- Permutation_cons_append. reflexivity.
  - rewrite delete_empty, gather_empty, (delete_id acc) by exact Ey.
    cbn [app]. rewrite <- Permutation_cons_append. reflexivity.
Qed.

Lemma groupedFiles_snoc fs file :
  groupedFiles (fs ++ [file]) = group_step (groupedFiles fs) file.
Proof. unfold groupedFiles. apply foldl_snoc. Qed.

Lemma groupedFiles_bucket fs y mk :
  bucket_of (groupedFiles fs) y mk = nonempty (filter (in_bucket y mk) fs).
Proof.
  induction fs as [|file fs IH] using rev_ind.
  - unfold groupedFiles, bucket_of. cbn. now rewrite lookup_empty.
  - rewrite groupedFiles_snoc, group_step_bucket, IH, filter_app.
    case_decide as Hd.
    + rewrite (filter_cons_True _ _ _ Hd). cbn [filter list_filter].
      destruct (filter (in_bucket y mk) fs) as [|a l]; reflexivity.
    + rewrite (filter_cons_False _ _ _ Hd). cbn [filter list_filter].
      now rewrite app_nil_r.
Qed.

Lemma groupedFiles_all_files fs : all_files (groupedFiles fs) ≡ₚ fs.
Proof.
  induction fs as [|file fs IH] using rev_ind.
  - unfold groupedFiles, all_files. cbn. now rewrite gather_empty.
  - rewrite groupedFiles_snoc, group_step_all_files, IH. reflexivity.
Qed.

(** ** The scanner and the order of the enumeration *)

Lemma scan_entry_app (UTC : Z -> Z) (acc : list AudioFile) (e : Entry) :
  scan_entry UTC acc e = (acc ++ scan_entry UTC nil e)%list.
Proof.
  unfold scan_entry.
  destruct (kind e); [|now rewrite app_nil_r].
  destruct (Regex.str_match scan_re (entry_name e)); [|now rewrite app_nil_r].
  destruct (parseFileName UTC (entry_name e)); [|now rewrite app_nil_r].
  reflexivity.
Qed.

Lemma kept_bind (UTC : Z -> Z) (entries : list Entry) :
  kept UTC entries = entries ≫= scan_entry UTC nil.
Proof.
  unfold kept.
  assert (G : forall acc, foldl (scan_entry UTC) acc entries
                          = (acc ++ (entries ≫= scan_entry UTC nil))%list).
  { induction entries as [|e l IH]; intros acc; cbn.
    - now rewrite app_nil_r.
    - rewrite IH, (scan_entry_app UTC acc e), <- app_assoc. reflexivity. }
  apply (G nil).
Qed.

Lemma kept_perm (UTC : Z -> Z) (l1 l2 : list Entry) :
  l1 ≡ₚ l2 -> kept UTC l1 ≡ₚ kept UTC l2.
Proof. intros H. rewrite !kept_bind. now rewrite H. Qed.

(** Two listings of the same files, both newest first, show the same
    sequence of dates. *)
Lemma newest_first_dates (l1 l2 : list AudioFile) :
  newest_first l1 -> newest_first l2 -> l1 ≡ₚ l2 ->
  fullDate <$> l1 = fullDate <$> l2.
Proof.
  intros H1 H2 Hp.
  apply (StronglySorted_unique (fun a b : Z => b <= a)).
  - eapply StronglySorted_fmap; [|exact H1]. intros a b H; exact H.
  - eapply StronglySorted_fmap; [|exact H2]. intros a b H; exact H.
  - now rewrite Hp.
Qed.

(** * The properties of the specification *)

Example scan_scenario : files sample_listing = [file_240101; file_231231].
Proof. vm_compute. reflexivity. Qed.

Example grouping_scenario :
  bucket_of (groupedFiles (files sample_listing)) "2024" "2024-01" = Some [file_240101] /\
  bucket_of (groupedFiles (files sample_listing)) "2023" "2023-12" = Some [file_231231].
Proof. split; vm_compute; reflexivity. Qed.

(** Days past the end of the month roll over: two names, one instant. *)
Example rollover_same_instant :
  di_fullDate <$> parseFileName utc_zone "240230_0000.mp3"
  = di_fullDate <$> parseFileName utc_zone "240301_0000.mp3".
Proof. vm_compute. reflexivity. Qed.

Lemma reachable_sample_listing : reachable utc_zone sample_listing.
Proof. apply reachable_step; [apply reachable_initial|exact I]. Qed.

(** ** The filename parser and the scanner *)

(** C1, as stated, fails for the parser: its pattern has no anchors, so it
    answers on a name that only contains a recording name. *)
Lemma parseFileName_answers_on_longer_name :
  ~ recording_name "x240101_0900.mp3.bak" /\
  Regex.str_match scan_re "x240101_0900.mp3.bak" = None /\
  parseFileName utc_zone "x240101_0900.mp3.bak"
  = Some (mkDateInfo "2024" "01" "01" "09:00" 1704099600000).
Proof.
  split; [|split; vm_compute; reflexivity].
  intros H. apply scan_re_matches in H. apply H. vm_compute. reflexivity.
Qed.

(** C1, amended: the parser returns no result for every filename in which
    no text of the form dddddd_dddd.mp3 occurs, and for every filename that
    is not exactly of that form the scanner keeps the file out of the file
    list, in every state the component can be in. *)
Theorem names_outside_the_pattern (UTC : Z -> Z) (filename : string) :
  (~ contains_recording_name filename -> parseFileName UTC filename = None) /\
  (~ recording_name filename ->
   forall (st : State) (picked : Outcome DirIter),
     reachable UTC st ->
     ~ In filename
         (map name (files (state_after (handleFolderSelect UTC picked) st)))).
Proof.
  split.
  - intros H. destruct (parseFileName UTC filename) eqn:E; [|reflexivity].
    exfalso. apply H, (parseFileName_some_iff UTC). congruence.
  - intros H st picked Hr Hin.
    assert (Hr' : reachable UTC (step UTC (EvFolderSelect picked) st))
      by (apply reachable_step; [exact Hr|exact I]).
    apply reachable_names in Hr'.
    apply in_map_iff in Hin. destruct Hin as (f & Ef & Hf).
    apply H. rewrite <- Ef.
    exact (proj1 (List.Forall_forall _ _) Hr' f Hf).
Qed.

Lemma names_outside_the_pattern_witness :
  ~ contains_recording_name "bad.mp3" /\
  ~ recording_name "bad.mp3" /\
  parseFileName utc_zone "bad.mp3" = None /\
  ~ In "bad.mp3"
      (map name
         (files (state_after
                   (handleFolderSelect utc_zone (Ok (iter_of_list sample_entries)))
                   initial))).
Proof.
  assert (H1 : ~ contains_recording_name "bad.mp3").
  { intros H. apply (parseFileName_some_iff utc_zone) in H. apply H.
    vm_compute. reflexivity. }
  assert (H2 : ~ recording_name "bad.mp3").
  { intros H. apply scan_re_matches in H. apply H. vm_compute. reflexivity. }
  destruct (names_outside_the_pattern utc_zone "bad.mp3") as [P S].
  split; [exact H1|]. split; [exact H2|]. split.
  - exact (P H1).
  - exact (S H2 initial (Ok (iter_of_list sample_entries)) (reachable_initial utc_zone)).
Defined.

(** C9: for every filename of the form dddddd_dddd.mp3 the parser returns a
    year that is "20" followed by the first two digits of the filename, and
    a time that is the seventh and eighth digits, a colon, and the ninth
    and tenth digits (the characters at offsets 7 to 10, after the
    underscore). *)
Theorem parseFileName_year_and_time (UTC : Z -> Z) (filename : string) :
  recording_name filename ->
  exists info : DateInfo,
    parseFileName UTC filename = Some info /\
    di_year info = "20" ++ substring 0 2 filename /\
    di_time info = substring 7 2 filename ++ ":" ++ substring 9 2 filename.
Proof.
  intros H. apply recording_name_chars in H.
  destruct H as (c1 & c2 & c3 & c4 & c5 & c6 & c7 & c8 & c9 & c10 & -> & D).
  eexists. split; [apply parseFileName_recording, D|].
  split; reflexivity.
Qed.

Lemma parseFileName_year_and_time_witness :
  recording_name "240315_1430.mp3" /\
  exists info : DateInfo,
    parseFileName utc_zone "240315_1430.mp3" = Some info /\
    di_year info = "20" ++ substring 0 2 "240315_1430.mp3" /\
    di_time info
    = substring 7 2 "240315_1430.mp3" ++ ":" ++ substring 9 2 "240315_1430.mp3".
Proof.
  assert (H : recording_name "240315_1430.mp3").
  { exists "240315", "1430". repeat split; reflexivity. }
  split; [exact H|].
  exact (parseFileName_year_and_time utc_zone "240315_1430.mp3" H).
Defined.

(** C2, as stated, fails when the order is to be strict: the day and time
    of a name roll over, so two names can denote one instant, and the
    scanner lists both files, one after the other, with the same
    fullDate. *)
Lemma scan_lists_equal_dates :
  let it := iter_of_list [ mkEntry KindFile "240230_0000.mp3";
                           mkEntry KindFile "240301_0000.mp3" ] in
  let listing := files (state_after (handleFolderSelect utc_zone (Ok it)) initial) in
  iter_throws it = false /\
  map (fun f => (name f, fullDate f)) listing
  = [ ("240230_0000.mp3", 1709251200000); ("240301_0000.mp3", 1709251200000) ] /\
  ~ StronglySorted (fun a b => fullDate b < fullDate a) listing.
Proof.
  intros it listing. split; [reflexivity|]. split; [vm_compute; reflexivity|].
  intros H.
  assert (E : listing
              = [ mkAudioFile "240230_0000.mp3" (mkEntry KindFile "240230_0000.mp3")
                    "2024" "02" "30" "00:00" 1709251200000;
                  mkAudioFile "240301_0000.mp3" (mkEntry KindFile "240301_0000.mp3")
                    "2024" "03" "01" "00:00" 1709251200000 ])
    by (vm_compute; reflexivity).
  rewrite E in H. inversion H as [|a l Hs Hall]; subst.
  inversion Hall as [|b l' Hlt _]; subst. cbn in Hlt. lia.
Qed.

(** C2, amended: after every scan that succeeds the file list is sorted by
    fullDate, newest first, in the wide sense: no file comes before a file
    with a later date, and files with the same date are next to each other.
    The list holds the entries the scanner keeps, and the sequence of dates
    it shows is the same for every order in which the directory yields its
    entries. *)
Theorem scan_lists_newest_first (UTC : Z -> Z) (it : DirIter) (st : State) :
  iter_throws it = false ->
  let listing := files (state_after (handleFolderSelect UTC (Ok it)) st) in
  StronglySorted (fun a b => fullDate b <= fullDate a) listing /\
  listing ≡ₚ kept UTC (iter_entries it) /\
  forall (it' : DirIter) (st' : State),
    iter_throws it' = false ->
    iter_entries it' ≡ₚ iter_entries it ->
    fullDate <$> files (state_after (handleFolderSelect UTC (Ok it')) st')
    = fullDate <$> listing.
Proof.
  intros H listing. subst listing. unfold state_after.
  rewrite (handleFolderSelect_ok UTC it st H). cbn [snd].
  change (files (with_files ?l st)) with l.
  split; [apply array_sort_newest_first|].
  split; [apply array_sort_perm|].
  intros it' st' H' Hp.
  rewrite (handleFolderSelect_ok UTC it' st' H'). cbn [snd].
  change (files (with_files ?l st')) with l.
  apply newest_first_dates; try apply array_sort_newest_first.
  rewrite !array_sort_perm. apply kept_perm, Hp.
Qed.

Lemma scan_lists_newest_first_witness :
  iter_throws (iter_of_list sample_entries) = false /\
  StronglySorted (fun a b => fullDate b <= fullDate a)
    (files (state_after
              (handleFolderSelect utc_zone (Ok (iter_of_list sample_entries)))
              initial)).
Proof.
  split; [reflexivity|].
  exact (proj1 (scan_lists_newest_first utc_zone (iter_of_list sample_entries)
                  initial eq_refl)).
Defined.

(** C4: if a scan fails, because the user cancels the picker or because the
    enumeration throws on its way, the error is caught and logged and the
    file list is the one from before, whole: nothing of the state is
    written. *)
Theorem failed_scan_keeps_file_list (UTC : Z -> Z) (picked : Outcome DirIter)
    (st : State) :
  scan_fails picked ->
  result_of (handleFolderSelect UTC picked) st = Ok tt /\
  files (state_after (handleFolderSelect UTC picked) st) = files st /\
  state_after (handleFolderSelect UTC picked) st
  = emit (ConsoleError "Error selecting folder:") st.
Proof.
  intros H. unfold result_of, state_after.
  rewrite (handleFolderSelect_fails UTC picked st H).
  repeat split.
Qed.

Lemma failed_scan_keeps_file_list_witness :
  let picked :=
    Ok (IterYield (mkEntry KindFile "250505_1200.mp3") (IterThrow "NotReadableError")) in
  scan_fails picked /\
  result_of (handleFolderSelect utc_zone picked) sample_listing = Ok tt /\
  files (state_after (handleFolderSelect utc_zone picked) sample_listing)
  = [file_240101; file_231231].
Proof.
  intros picked.
  assert (H : scan_fails picked) by reflexivity.
  destruct (failed_scan_keeps_file_list utc_zone picked sample_listing H)
    as (Hr & Hf & _).
  split; [exact H|]. split; [exact Hr|].
  rewrite Hf. vm_compute. reflexivity.
Defined.

(** ** Grouping *)

Lemma digit_is_no_letter (c a : ascii) :
  Regex.is_digit c = true -> Regex.is_digit a = false -> Ascii.eqb c a = false.
Proof.
  intros Hc Ha. destruct (Ascii.eqb_spec c a) as [->|]; [congruence|reflexivity].
Qed.

(** A key that starts with a digit or with a hyphen names no member of
    [Object.prototype]. *)
Lemma digit_keys_not_inherited (f : AudioFile) :
  digits (year f) = true ->
  inherited (year f) = false /\ inherited (month_key f) = false.
Proof.
  unfold month_key. destruct (year f) as [|c r]; intros H.
  - split; reflexivity.
  - cbn [digits] in H. apply andb_prop in H. destruct H as [Hc _].
    unfold inherited, object_prototype_names.
    cbv [String.append]. cbn [existsb String.eqb].
    rewrite !(digit_is_no_letter c _ Hc) by reflexivity.
    split; reflexivity.
Qed.

(** C3: the grouping is a lossless partition of the file list, for every
    file list whose years are strings of digits, as the years [20YY] of the
    lists the component holds.  No key of such a list names an inherited
    member of the object, so every lookup of the reduction meets own keys
    only.  The files of all the buckets together are the files of the list,
    each as often as it is listed, and the bucket of a year and a
    year-month key holds the files of the list with that year and key, in
    the order of the list; a bucket exists only when it holds a file. *)
Theorem groupedFiles_lossless_partition (fs : list AudioFile) :
  Forall (fun f => digits (year f) = true) fs ->
  Forall (fun f => inherited (year f) = false /\ inherited (month_key f) = false) fs /\
  all_files (groupedFiles fs) ≡ₚ fs /\
  forall y mk : string,
    bucket_of (groupedFiles fs) y mk = nonempty (filter (in_bucket y mk) fs).
Proof.
  intros Hd. split; [|split].
  - eapply Forall_impl; [exact Hd|]. intros f Hf. apply digit_keys_not_inherited, Hf.
  - apply groupedFiles_all_files.
  - intros y mk. apply groupedFiles_bucket.
Qed.

Lemma groupedFiles_lossless_partition_witness :
  Forall (fun f => digits (year f) = true) (files sample_listing) /\
  all_files (groupedFiles (files sample_listing)) ≡ₚ files sample_listing /\
  bucket_of (groupedFiles (files sample_listing)) "2024" "2024-01"
  = nonempty (filter (in_bucket "2024" "2024-01") (files sample_listing)).
Proof.
  assert (Hd : Forall (fun f => digits (year f) = true) (files sample_listing))
    by (rewrite scan_scenario; repeat constructor).
  destruct (groupedFiles_lossless_partition (files sample_listing) Hd)
    as (_ & Hp & Hb).
  split; [exact Hd|]. split; [exact Hp|exact (Hb "2024" "2024-01")].
Defined.

(** ** Selecting a file *)

Lemma handleFileSelect_ok (file : AudioFile) (fileData : File) (st : State) :
  let st' := state_after (handleFileSelect file (Ok fileData)) st in
  selectedFile st' = Some file /\
  isPlaying st' = false /\
  currentTime st' = 0%float /\
  duration st' = duration st /\
  objectURLs st' = (objectURLs st ++ [created st])%list /\
  Audio.paused (audioRef st') = true /\
  Audio.src (audioRef st') = Some (created st) /\
  exists after,
    effects st'
    = (effects st
       ++ [AudioPause; CreateObjectURL (created st); AudioSetSrc (created st)]
       ++ after)%list /\
    forallb (fun e => negb (is_set_src e)) after = true.
Proof.
  run_handler. destruct (transciberRef st); cbn.
  - repeat split.
    exists [CallPipeline fileData]. rewrite <- !app_assoc. split; reflexivity.
  - repeat split.
    exists nil. rewrite <- !app_assoc. split; reflexivity.
Qed.

(** C5 fails on the code: each selection creates a URL and hands the
    closure that would revoke it to a caller that drops it.  After two
    selections the two URLs are live, and no URL has been revoked. *)
Theorem object_urls_accumulate :
  let st :=
    run utc_zone
      [ EvFileSelect file_240101 (Ok (mkFile "240101_0900.mp3"));
        EvFileSelect file_231231 (Ok (mkFile "231231_2359.mp3")) ]
      sample_listing in
  objectURLs st = [0%nat; 1%nat] /\
  effects st
  = [ AudioPause; CreateObjectURL 0%nat; AudioSetSrc 0%nat;
      AudioPause; CreateObjectURL 1%nat; AudioSetSrc 1%nat ].
Proof. split; vm_compute; reflexivity. Qed.



(** C7: when a file is selected, whatever is playing, the handler pauses
    the audio element, and only then binds the new source to it: the pause
    is the first thing it does to the host, the binding comes after it, and
    it binds no other source.  When the file cannot be read, the element is
    not touched at all. *)
Theorem selection_pauses_before_binding (file : AudioFile) (got : Outcome File)
    (st : State) :
  let st' := state_after (handleFileSelect file got) st in
  match got with
  | Ok fileData =>
      Audio.paused (audioRef st') = true /\
      Audio.src (audioRef st') = Some (created st) /\
      exists after : list Effect,
        effects st'
        = (effects st
           ++ [AudioPause; CreateObjectURL (created st); AudioSetSrc (created st)]
           ++ after)%list /\
        forallb (fun e => negb (is_set_src e)) after = true
  | Thrown _ =>
      audioRef st' = audioRef st /\
      effects st' = (effects st ++ [ConsoleError "Error loading audio file:"])%list
  end.
Proof.
  intros st'. destruct got as [fileData|error].
  - destruct (handleFileSelect_ok file fileData st)
      as (_ & _ & _ & _ & _ & Hp & Hs & He).
    fold st' in Hp, Hs, He. split; [exact Hp|]. split; [exact Hs|exact He].
  - subst st'. run_handler. split; reflexivity.
Qed.

(** ** Transcription *)

(** C8: when [transcribeAudio] is called while the pipeline is not loaded,
    it returns without an exception, the transcript is the fixed
    "not initialized" text, and isTranscribing is false afterwards. *)
Theorem transcribe_without_pipeline (UTC : Z -> Z) (st : State)
    (fileData : File) (answer : Outcome string) :
  reachable UTC st ->
  transciberRef st = None ->
  result_of (transcribeAudio fileData answer) st = Ok tt /\
  transcript (state_after (transcribeAudio fileData answer) st)
  = "Error: Transcription model not initialized" /\
  isTranscribing (state_after (transcribeAudio fileData answer) st) = false.
Proof.
  intros Hr Hn. pose proof (reachable_not_transcribing UTC st Hr Hn) as Hi.
  run_handler. rewrite Hn. cbn. repeat split. exact Hi.
Qed.

Lemma transcribe_without_pipeline_witness :
  reachable utc_zone sample_listing /\
  transciberRef sample_listing = None /\
  result_of (transcribeAudio (mkFile "240101_0900.mp3") (Ok "hello")) sample_listing
  = Ok tt /\
  transcript (state_after (transcribeAudio (mkFile "240101_0900.mp3") (Ok "hello"))
                sample_listing)
  = "Error: Transcription model not initialized" /\
  isTranscribing (state_after (transcribeAudio (mkFile "240101_0900.mp3") (Ok "hello"))
                    sample_listing)
  = false.
Proof.
  split; [exact reachable_sample_listing|]. split; [reflexivity|].
  exact (transcribe_without_pipeline utc_zone sample_listing
           (mkFile "240101_0900.mp3") (Ok "hello")
           reachable_sample_listing eq_refl).
Defined.

(** ** Seeking *)

(** C10, as stated, fails: a first element is not enough.  On an array
    whose first element is NaN the setter of the element throws as it does
    on the empty array, and the position is not written. *)
Lemma handleSeek_rejects_nan :
  (nan :: nil) <> nil /\
  result_of (handleSeek (nan :: nil)) sample_playing = Thrown "TypeError" /\
  state_after (handleSeek (nan :: nil)) sample_playing = sample_playing.
Proof.
  split; [discriminate|]. split; vm_compute; reflexivity.
Qed.

(** C10, amended: [handleSeek] reads the first element of its array and
    nothing else; the element is missing exactly when the array is empty.
    It has a result exactly when the array is not empty and
    its first element is a finite number; then it assigns that element to
    the position of the audio element and sets currentTime to it, whatever
    follows in the array; otherwise it throws before anything is
    written. *)
Theorem handleSeek_first_element (value : list float) (st : State) :
  (value !! 0%nat = None <-> value = nil) /\
  (result_of (handleSeek value) st = Ok tt <->
   exists (newTime : float) (rest : list float),
     value = newTime :: rest /\ PrimFloat.is_finite newTime = true) /\
  (forall (newTime : float) (rest : list float),
     value = newTime :: rest ->
     PrimFloat.is_finite newTime = true ->
     currentTime (state_after (handleSeek value) st) = newTime /\
     effects (state_after (handleSeek value) st)
     = (effects st ++ [AudioSetCurrentTime newTime])%list /\
     handleSeek value st = handleSeek (newTime :: nil) st) /\
  (result_of (handleSeek value) st <> Ok tt ->
   state_after (handleSeek value) st = st).
Proof.
  split; [destruct value; split; (reflexivity || discriminate)|].
  split; [|split].
  - destruct value as [|v rest]; run_handler.
    + split; [discriminate|]. intros (n & r & E & _). discriminate E.
    + unfold audio_set_currentTime.
      destruct (PrimFloat.is_finite v) eqn:Ef; run_handler.
      * split; [|reflexivity]. intros _. exists v, rest. split; [reflexivity|exact Ef].
      * split; [discriminate|]. intros (n & r & E & Hf). congruence.
  - intros newTime rest -> Hf. run_handler. unfold audio_set_currentTime.
    rewrite Hf. run_handler. repeat split.
  - destruct value as [|v rest]; run_handler; [reflexivity|].
    unfold audio_set_currentTime.
    destruct (PrimFloat.is_finite v) eqn:Ef; run_handler; [congruence|reflexivity].
Qed.

Lemma handleSeek_first_element_witness :
  (exists (newTime : float) (rest : list float),
     (1.5%float :: 9%float :: nil) = newTime :: rest /\
     PrimFloat.is_finite newTime = true) /\
  result_of (handleSeek (1.5%float :: 9%float :: nil)) sample_playing = Ok tt /\
  currentTime (state_after (handleSeek (1.5%float :: 9%float :: nil)) sample_playing)
  = 1.5%float /\
  handleSeek (1.5%float :: 9%float :: nil) sample_playing
  = handleSeek (1.5%float :: nil) sample_playing.
Proof.
  destruct (handleSeek_first_element (1.5%float :: 9%float :: nil) sample_playing)
    as (_ & Hok & Hfirst & _).
  assert (Hex : exists (newTime : float) (rest : list float),
            (1.5%float :: 9%float :: nil) = newTime :: rest /\
            PrimFloat.is_finite newTime = true)
    by (exists 1.5%float, (9%float :: nil); split; reflexivity).
  destruct (Hfirst 1.5%float (9%float :: nil) eq_refl eq_refl) as (Hc & _ & Hr).
  split; [exact Hex|]. split; [exact (proj2 Hok Hex)|].
  split; [exact Hc|exact Hr].
Defined.

(** * Further properties of the component *)

(** ** What the scanner lists *)

Lemma accepts_iff (e : Entry) :
  accepts e = true <-> kind e = KindFile /\ recording_name (entry_name e).
Proof.
  unfold accepts. rewrite <- scan_re_matches.
  destruct (kind e); destruct (Regex.str_match scan_re (entry_name e));
    split; try discriminate; try (intros [? ?]; congruence); intros _;
    split; congruence.
Qed.

(** On an entry that passes the test the parser always answers, with the
    fields that stand at fixed places in the name. *)
Lemma scan_entry_descriptor (UTC : Z -> Z) (e : Entry) :
  scan_entry UTC nil e = if accepts e then [descriptor UTC e] else nil.
Proof.
  pose proof (accepts_iff e) as Ha. unfold accepts in *. unfold scan_entry.
  destruct e as [k n]. cbn [kind entry_name] in *.
  destruct k; [|reflexivity].
  destruct (Regex.str_match scan_re n); [|reflexivity].
  destruct (proj1 Ha eq_refl) as [_ Hn].
  apply recording_name_chars in Hn.
  destruct Hn as (c1 & c2 & c3 & c4 & c5 & c6 & c7 & c8 & c9 & c10 & -> & D).
  rewrite (parseFileName_recording UTC _ _ _ _ _ _ _ _ _ _ D).
  reflexivity.
Qed.

Lemma kept_descriptors (UTC : Z -> Z) (entries : list Entry) :
  kept UTC entries = descriptor UTC <$> List.filter accepts entries.
Proof.
  rewrite kept_bind. induction entries as [|e l IH]; [reflexivity|].
  cbn [mbind list_bind List.filter]. fold (l ≫= scan_entry UTC nil).
  rewrite IH, scan_entry_descriptor.
  destruct (accepts e); reflexivity.
Qed.

Lemma handleFolderSelect_descriptors (UTC : Z -> Z) (it : DirIter) (st : State) :
  iter_throws it = false ->
  state_after (handleFolderSelect UTC (Ok it)) st
  = with_files
      (array_sort by_date_desc
         (descriptor UTC <$> List.filter accepts (iter_entries it)))
      st.
Proof.
  intros H. unfold state_after. rewrite (handleFolderSelect_ok UTC it st H).
  cbn [snd]. now rewrite kept_descriptors.
Qed.

(** A scan that succeeds replaces the file list by the descriptors of the
    entries that are files with a recording name, one for each, sorted; it
    writes nothing else, and what was listed before plays no part. *)
Theorem scan_lists_the_recordings (UTC : Z -> Z) (it : DirIter) (st : State) :
  iter_throws it = false ->
  state_after (handleFolderSelect UTC (Ok it)) st
  = with_files
      (array_sort by_date_desc
         (descriptor UTC <$> List.filter accepts (iter_entries it)))
      st /\
  forall e : Entry,
    accepts e = true <-> kind e = KindFile /\ recording_name (entry_name e).
Proof.
  intros H. split; [|apply accepts_iff].
  apply handleFolderSelect_descriptors, H.
Qed.

Lemma scan_lists_the_recordings_witness :
  iter_throws (iter_of_list sample_entries) = false /\
  state_after (handleFolderSelect utc_zone (Ok (iter_of_list sample_entries)))
    sample_playing
  = with_files [file_240101; file_231231] sample_playing.
Proof.
  split; [reflexivity|].
  rewrite (proj1 (scan_lists_the_recordings utc_zone (iter_of_list sample_entries)
                    sample_playing eq_refl)).
  reflexivity.
Defined.

(** ** The order of files with one date *)

Lemma dated_insert (k : Z) (x : AudioFile) (l : list AudioFile) :
  dated k (sort_insert by_date_desc x l) = dated k (x :: l).
Proof.
  unfold dated. induction l as [|y l IH]; [reflexivity|].
  cbn [sort_insert]. unfold by_date_desc at 1.
  destruct (fullDate y - fullDate x <=? 0) eqn:E; [reflexivity|].
  apply Z.leb_gt in E.
  cbn [List.filter] in *. rewrite IH.
  destruct (fullDate x =? k) eqn:Ex; [|reflexivity].
  apply Z.eqb_eq in Ex.
  destruct (fullDate y =? k) eqn:Ey; [|reflexivity].
  apply Z.eqb_eq in Ey. lia.
Qed.

(** The sort is stable: the files that show one instant stay in the order
    in which they were before the sort. *)
Lemma array_sort_stable (k : Z) (l : list AudioFile) :
  dated k (array_sort by_date_desc l) = dated k l.
Proof.
  induction l as [|x l IH]; [reflexivity|].
  cbn [array_sort foldr]. fold (array_sort by_date_desc l).
  rewrite dated_insert. unfold dated in *. cbn [List.filter].
  now rewrite IH.
Qed.

(** Files whose names denote the same instant are listed in the order in
    which the directory yields them. *)
Theorem scan_keeps_order_of_equal_dates (UTC : Z -> Z) (it : DirIter)
    (st : State) (k : Z) :
  iter_throws it = false ->
  dated k (files (state_after (handleFolderSelect UTC (Ok it)) st))
  = dated k (descriptor UTC <$> List.filter accepts (iter_entries it)).
Proof.
  intros H.
  rewrite (handleFolderSelect_descriptors UTC it st H).
  change (files (with_files ?l st)) with l.
  apply array_sort_stable.
Qed.

Lemma scan_keeps_order_of_equal_dates_witness :
  let it := iter_of_list [ mkEntry KindFile "240301_0000.mp3";
                           mkEntry KindFile "240101_0900.mp3";
                           mkEntry KindFile "240230_0000.mp3" ] in
  iter_throws it = false /\
  name <$> dated 1709251200000
             (files (state_after (handleFolderSelect utc_zone (Ok it)) initial))
  = ["240301_0000.mp3"; "240230_0000.mp3"].
Proof.
  intros it. split; [reflexivity|].
  rewrite (scan_keeps_order_of_equal_dates utc_zone it initial 1709251200000 eq_refl).
  vm_compute. reflexivity.
Defined.

(** ** What holds of the file list in every state *)

Lemma reachable_listing (UTC : Z -> Z) (st : State) :
  reachable UTC st ->
  exists entries : list Entry,
    files st = array_sort by_date_desc (descriptor UTC <$> List.filter accepts entries).
Proof.
  induction 1 as [|st ev Hr IH Hen].
  - exists nil. reflexivity.
  - destruct (is_folder_select ev) eqn:E.
    + destruct ev; try discriminate E.
      destruct (step_folder_files UTC picked st) as [-> | [entries ->]]; [exact IH|].
      exists entries. now rewrite kept_descriptors.
    + rewrite step_files; [exact IH|exact E].
Qed.

Lemma reachable_described (UTC : Z -> Z) (st : State) :
  reachable UTC st ->
  newest_first (files st) /\
  Forall (fun f => accepts (handle f) = true /\ f = descriptor UTC (handle f))
    (files st).
Proof.
  intros Hr. destruct (reachable_listing UTC st Hr) as [entries ->].
  split; [apply array_sort_newest_first|].
  eapply Permutation_Forall; [symmetry; apply array_sort_perm|].
  apply Forall_fmap, Forall_forall. intros e He.
  apply list_elem_of_In, filter_In in He. cbn. split; [apply He|reflexivity].
Qed.

(** The years of the lists the component holds are strings of digits. *)
Lemma reachable_years_are_digits (UTC : Z -> Z) (st : State) :
  reachable UTC st -> Forall (fun f => digits (year f) = true) (files st).
Proof.
  intros Hr. destruct (reachable_described UTC st Hr) as [_ Hd].
  eapply Forall_impl; [exact Hd|]. intros f [Ha Ef].
  apply accepts_iff in Ha. destruct Ha as [_ Hn].
  apply recording_name_chars in Hn.
  destruct Hn as (c1 & c2 & c3 & c4 & c5 & c6 & c7 & c8 & c9 & c10 & En & D).
  rewrite Ef. unfold descriptor. cbn [year]. rewrite En.
  cbn in D.
  repeat match goal with
         | H : _ && _ = true |- _ => apply andb_prop in H; destruct H
         end.
  cbv [String.append]. cbn.
  repeat match goal with
         | H : Regex.is_digit _ = true |- _ => rewrite H; clear H
         end.
  reflexivity.
Qed.

(** In every state the file list is sorted, newest first, and every
    descriptor in it is the one of its handle: the handle is a file entry
    with a recording name, and the name, the year, the month, the day, the
    time and the date of the descriptor are read off that name. *)
Theorem listing_invariant (UTC : Z -> Z) (st : State) :
  reachable UTC st ->
  StronglySorted (fun a b => fullDate b <= fullDate a) (files st) /\
  Forall (fun f => accepts (handle f) = true /\ f = descriptor UTC (handle f))
    (files st).
Proof.
  intros Hr. exact (reachable_described UTC st Hr).
Qed.

Lemma listing_invariant_witness :
  reachable utc_zone sample_listing /\
  StronglySorted (fun a b => fullDate b <= fullDate a) (files sample_listing) /\
  Forall (fun f => accepts (handle f) = true /\ f = descriptor utc_zone (handle f))
    (files sample_listing).
Proof.
  split; [exact reachable_sample_listing|].
  exact (listing_invariant utc_zone sample_listing reachable_sample_listing).
Defined.

Lemma newest_first_filter (P : AudioFile -> Prop) `{forall f, Decision (P f)}
    (l : list AudioFile) :
  newest_first l -> newest_first (filter P l).
Proof.
  unfold newest_first. induction 1 as [|x l Hs IH Hall]; [constructor|].
  rewrite filter_cons. case_decide; [|exact IH].
  constructor; [exact IH|].
  apply Forall_forall. intros y Hy. apply list_elem_of_filter in Hy.
  exact (proj1 (Forall_forall _ _) Hall y (proj2 Hy)).
Qed.

(** In every state each bucket of the grouping is sorted, newest first, and
    its keys are a year of four digits that starts with 20 and that year, a
    hyphen and two digits. *)
Theorem buckets_invariant (UTC : Z -> Z) (st : State) (y mk : string)
    (l : list AudioFile) :
  reachable UTC st ->
  bucket_of (groupedFiles (files st)) y mk = Some l ->
  StronglySorted (fun a b => fullDate b <= fullDate a) l /\
  String.length y = 4%nat /\ substring 0 2 y = "20" /\ digits y = true /\
  String.length mk = 7%nat /\ substring 0 5 mk = y ++ "-" /\
  digits (substring 5 2 mk) = true.
Proof.
  intros Hr Hb. rewrite groupedFiles_bucket in Hb.
  destruct (reachable_described UTC st Hr) as [Hs Hd].
  assert (El : l = filter (in_bucket y mk) (files st)).
  { destruct (filter (in_bucket y mk) (files st)); [discriminate Hb|].
    cbn in Hb. congruence. }
  split; [rewrite El; apply newest_first_filter, Hs|].
  destruct l as [|f l']; [rewrite <- El in Hb; discriminate Hb|].
  assert (Hf : f ∈ filter (in_bucket y mk) (files st))
    by (rewrite <- El; apply list_elem_of_here).
  apply list_elem_of_filter in Hf. destruct Hf as [[Hy Hm] Hin].
  destruct (proj1 (Forall_forall _ _) Hd f Hin) as [Ha Ef].
  apply accepts_iff in Ha. destruct Ha as [_ Hn].
  apply recording_name_chars in Hn.
  destruct Hn as (c1 & c2 & c3 & c4 & c5 & c6 & c7 & c8 & c9 & c10 & En & D).
  subst y mk. unfold month_key. rewrite Ef. unfold descriptor.
  cbn [year month]. rewrite En.
  cbn in D.
  repeat match goal with
         | H : _ && _ = true |- _ => apply andb_prop in H; destruct H
         end.
  cbv [String.append]. cbn.
  repeat match goal with
         | H : Regex.is_digit _ = true |- _ => rewrite H; clear H
         end.
  repeat split; reflexivity.
Qed.

Lemma buckets_invariant_witness :
  reachable utc_zone sample_listing /\
  bucket_of (groupedFiles (files sample_listing)) "2023" "2023-12"
  = Some [file_231231] /\
  StronglySorted (fun a b => fullDate b <= fullDate a) [file_231231] /\
  String.length "2023" = 4%nat.
Proof.
  assert (Hb : bucket_of (groupedFiles (files sample_listing)) "2023" "2023-12"
               = Some [file_231231]) by (vm_compute; reflexivity).
  destruct (buckets_invariant utc_zone sample_listing "2023" "2023-12"
              [file_231231] reachable_sample_listing Hb) as (Hs & Hl & _).
  split; [exact reachable_sample_listing|]. split; [exact Hb|].
  split; [exact Hs|exact Hl].
Defined.

(** ** What holds of the transport and of the transcription in every state *)

Lemma step_folder_shape (UTC : Z -> Z) (picked : Outcome DirIter) (st : State) :
  step UTC (EvFolderSelect picked) st
  = emit (ConsoleError "Error selecting folder:") st \/
  exists l, step UTC (EvFolderSelect picked) st = with_files l st.
Proof.
  unfold step, state_after, handler.
  destruct picked as [it|err]; [destruct (iter_throws it) eqn:E|].
  - left. now rewrite handleFolderSelect_fails.
  - right. eexists. now rewrite handleFolderSelect_ok.
  - left. now rewrite handleFolderSelect_fails.
Qed.

Lemma asked_to_play_snoc (l : list Effect) (e : Effect) :
  asked_to_play (l ++ [e])
  = match e with
    | AudioPlay => true
    | AudioPause => false
    | _ => asked_to_play l
    end.
Proof.
  unfold asked_to_play. rewrite List.filter_app.
  destruct e; cbn [List.filter is_transport]; rewrite ?app_nil_r, ?last_snoc;
    reflexivity.
Qed.

Lemma reachable_sample_playing : reachable utc_zone sample_playing.
Proof.
  unfold sample_playing, run. cbn [foldl].
  apply reachable_step;
    [apply reachable_step;
       [apply reachable_step; [exact reachable_sample_listing|]|exact I]|].
  - cbn. left. reflexivity.
  - vm_compute. discriminate.
Qed.

(** In every state, while isPlaying is true a file is selected, and the
    last call of the component on the transport of the audio element was
    [play()], with no [pause()] after it.  (Whether the element did start
    is not known to the component: it drops the promise of [play()].) *)
Theorem playing_invariant (UTC : Z -> Z) (st : State) :
  reachable UTC st ->
  isPlaying st = true ->
  asked_to_play (effects st) = true /\ selectedFile st <> None.
Proof.
  induction 1 as [|st ev Hr IH Hen]; [discriminate|].
  destruct (is_folder_select ev) eqn:E.
  - destruct ev; try discriminate E.
    destruct (step_folder_shape UTC picked st) as [-> | [l ->]]; [|exact IH].
    cbn. rewrite asked_to_play_snoc. exact IH.
  - destruct ev; try discriminate E; run_handler;
      repeat (case_match; simplify_eq/=);
      rewrite ?asked_to_play_snoc; intros Hp;
      try discriminate Hp; try (exact (IH Hp));
      split; try reflexivity; try assumption; try discriminate.
Qed.

Lemma playing_invariant_witness :
  reachable utc_zone sample_playing /\
  isPlaying sample_playing = true /\
  asked_to_play (effects sample_playing) = true /\
  selectedFile sample_playing <> None.
Proof.
  split; [exact reachable_sample_playing|]. split; [reflexivity|].
  exact (playing_invariant utc_zone sample_playing reachable_sample_playing eq_refl).
Defined.

(** In every state the audio element is bound to the URL that was created
    last, and it has a source exactly when a file is selected. *)
Theorem source_invariant (UTC : Z -> Z) (st : State) :
  reachable UTC st ->
  Audio.src (audioRef st) = last (objectURLs st) /\
  (selectedFile st = None <-> Audio.src (audioRef st) = None).
Proof.
  induction 1 as [|st ev Hr [IH1 IH2] Hen]; [split; [reflexivity|split; reflexivity]|].
  destruct (is_folder_select ev) eqn:E.
  - destruct ev; try discriminate E.
    destruct (step_folder_shape UTC picked st) as [-> | [l ->]];
      split; assumption.
  - destruct ev; try discriminate E; run_handler;
      repeat (case_match; simplify_eq/=); split;
      try assumption; try (symmetry; apply last_snoc);
      try (split; discriminate).
Qed.

Lemma source_invariant_witness :
  reachable utc_zone sample_listing /\
  (selectedFile sample_listing = None
   <-> Audio.src (audioRef sample_listing) = None).
Proof.
  split; [exact reachable_sample_listing|].
  exact (proj2 (source_invariant utc_zone sample_listing reachable_sample_listing)).
Defined.

(** In every state, while isTranscribing is true the pipeline is loaded and
    a call of it is pending. *)
Theorem transcribing_invariant (UTC : Z -> Z) (st : State) :
  reachable UTC st ->
  isTranscribing st = true ->
  (0 < inflight st)%nat /\ transciberRef st <> None.
Proof.
  induction 1 as [|st ev Hr IH Hen]; [discriminate|].
  destruct (is_folder_select ev) eqn:E.
  - destruct ev; try discriminate E.
    destruct (step_folder_shape UTC picked st) as [-> | [l ->]]; exact IH.
  - destruct ev; try discriminate E; run_handler;
      repeat (case_match; simplify_eq/=); intros Ht;
      try (destruct (IH Ht) as [I1 I2]); try discriminate Ht;
      split; try assumption; try lia; try congruence.
Qed.

Lemma reachable_sample_transcribing : reachable utc_zone sample_transcribing.
Proof.
  unfold sample_transcribing, run. cbn [foldl].
  apply reachable_step.
  - apply reachable_step; [exact reachable_sample_listing|exact I].
  - cbn. left. reflexivity.
Qed.

Lemma transcribing_invariant_witness :
  reachable utc_zone sample_transcribing /\
  isTranscribing sample_transcribing = true /\
  (0 < inflight sample_transcribing)%nat /\
  transciberRef sample_transcribing <> None.
Proof.
  split; [exact reachable_sample_transcribing|]. split; [reflexivity|].
  exact (transcribing_invariant utc_zone sample_transcribing
           reachable_sample_transcribing eq_refl).
Defined.

(** Once the pipeline is loaded no event unloads it. *)
Theorem pipeline_stays_loaded (UTC : Z -> Z) (ev : Event) (st : State) :
  transciberRef st <> None -> transciberRef (step UTC ev st) <> None.
Proof.
  intros H Hn. apply H. exact (step_transciberRef UTC ev st Hn).
Qed.

Lemma pipeline_stays_loaded_witness :
  transciberRef sample_transcribing <> None /\
  transciberRef (step utc_zone (EvInit (Thrown "network")) sample_transcribing)
  <> None.
Proof.
  assert (H : transciberRef sample_transcribing <> None) by discriminate.
  split; [exact H|].
  exact (pipeline_stays_loaded utc_zone (EvInit (Thrown "network"))
           sample_transcribing H).
Defined.

(** ** Transcription with a loaded pipeline *)



(** Nothing ties an answer of the pipeline to the selection: when two files
    are selected one after the other and the first answer arrives, the
    transcript shows that answer under the second file, and isTranscribing
    is false although the second call is still pending. *)
Theorem late_answer_lands_on_new_selection (UTC : Z -> Z) (st : State)
    (p : Pipeline) (fileA fileB : AudioFile) (dataA dataB : File)
    (text : string) :
  transciberRef st = Some p ->
  let st' :=
    run UTC
      [ EvFileSelect fileA (Ok dataA);
        EvFileSelect fileB (Ok dataB);
        EvTranscribed (Ok text) ]
      st in
  selectedFile st' = Some fileB /\
  transcript st' = text /\
  isTranscribing st' = false /\
  inflight st' = S (inflight st).
Proof.
  intros Hp st'. subst st'. unfold run. cbn [foldl].
  run_handler. repeat (rewrite Hp; cbn). repeat split.
Qed.

Lemma late_answer_lands_on_new_selection_witness :
  transciberRef sample_transcribing = Some WhisperSmall /\
  let st' :=
    run utc_zone
      [ EvFileSelect file_240101 (Ok (mkFile "240101_0900.mp3"));
        EvFileSelect file_231231 (Ok (mkFile "231231_2359.mp3"));
        EvTranscribed (Ok "happy new year") ]
      sample_transcribing in
  selectedFile st' = Some file_231231 /\
  transcript st' = "happy new year" /\
  isTranscribing st' = false /\
  inflight st' = S (inflight sample_transcribing).
Proof.
  split; [reflexivity|].
  exact (late_answer_lands_on_new_selection utc_zone sample_transcribing
           WhisperSmall file_240101 file_231231 (mkFile "240101_0900.mp3")
           (mkFile "231231_2359.mp3") "happy new year" eq_refl).
Defined.

(** ** A file that cannot be read *)

(** When the file of a selection cannot be read, the handler returns
    without an exception and without a closure; the selection, the
    playback state, the transcript, the audio element and the object URLs
    are what they were, and the only effect is the logged error. *)
Theorem failed_selection_changes_nothing (file : AudioFile) (error : string)
    (st : State) :
  state_after (handleFileSelect file (Thrown error)) st
  = emit (ConsoleError "Error loading audio file:") st /\
  match result_of (handleFileSelect file (Thrown error)) st with
  | Ok None => True
  | _ => False
  end.
Proof. run_handler. split; [reflexivity|exact I]. Qed.

(** ** Playing and pausing *)

(** Two presses of the transport button, with nothing in between, bring
    isPlaying back to what it was, in every state and whether the element
    starts or not; each press calls the element once: [pause()] then
    [play()] when isPlaying was true, [play()] then [pause()] otherwise. *)
Theorem two_toggles_restore (UTC : Z -> Z) (st : State) (started1 started2 : bool) :
  let st' := run UTC [EvTogglePlayPause started1; EvTogglePlayPause started2] st in
  isPlaying st' = isPlaying st /\
  effects st'
  = (effects st
     ++ (if isPlaying st then [AudioPause; AudioPlay] else [AudioPlay; AudioPause]))%list.
Proof.
  intros st'. subst st'. unfold run. cbn [foldl]. run_handler.
  destruct (isPlaying st) eqn:Ei; cbn; rewrite <- ?app_assoc; split; reflexivity.
Qed.

(** ** The calendar of [new Date] *)

Lemma MakeFullYear_id (y : Z) : 100 <= y -> JSDate.MakeFullYear y = y.
Proof.
  intros H. unfold JSDate.MakeFullYear.
  destruct (y <=? 99) eqn:E; [apply Z.leb_le in E; lia|].
  now rewrite andb_false_r.
Qed.

(** A year has 366 days when it is a leap year and 365 days otherwise. *)
Lemma DayFromYear_succ (y : Z) :
  JSDate.DayFromYear (y + 1)
  = JSDate.DayFromYear y + (if JSDate.InLeapYear y then 366 else 365).
Proof.
  unfold JSDate.DayFromYear, JSDate.InLeapYear.
  destruct (Z.eqb_spec (y mod 4) 0) as [E4|E4];
    destruct (Z.eqb_spec (y mod 100) 0) as [E100|E100];
    destruct (Z.eqb_spec (y mod 400) 0) as [E400|E400];
    cbn [andb orb negb];
    Z.div_mod_to_equations; lia.
Qed.

Lemma DayFromYear_mono (y1 y2 : Z) :
  y1 <= y2 -> JSDate.DayFromYear y1 <= JSDate.DayFromYear y2.
Proof.
  intros H. unfold JSDate.DayFromYear. Z.div_mod_to_equations. lia.
Qed.

Lemma month_cases (mo : Z) :
  0 <= mo <= 11 ->
  mo = 0 \/ mo = 1 \/ mo = 2 \/ mo = 3 \/ mo = 4 \/ mo = 5 \/
  mo = 6 \/ mo = 7 \/ mo = 8 \/ mo = 9 \/ mo = 10 \/ mo = 11.
Proof. lia. Qed.

Lemma MakeDay_in_year (y mo d : Z) :
  0 <= mo <= 11 ->
  JSDate.MakeDay y mo d
  = JSDate.DayFromYear y + JSDate.MonthStart (JSDate.InLeapYear y) mo + d - 1.
Proof.
  intros H. unfold JSDate.MakeDay.
  rewrite (Z.div_small mo 12), (Z.mod_small mo 12), Z.add_0_r by lia.
  reflexivity.
Qed.

(** Month index 12 is January of the next year, and month index -1, which
    the parser makes of month "00", is December of the year before. *)
Lemma MakeDay_month_carry (y mo d : Z) :
  JSDate.MakeDay y (mo + 12) d = JSDate.MakeDay (y + 1) mo d.
Proof.
  unfold JSDate.MakeDay.
  replace ((mo + 12) / 12) with (mo / 12 + 1)
    by (Z.div_mod_to_equations; lia).
  replace ((mo + 12) mod 12) with (mo mod 12)
    by (Z.div_mod_to_equations; lia).
  replace (y + (mo / 12 + 1)) with (y + 1 + mo / 12) by lia.
  reflexivity.
Qed.

(** The fields of a date roll over: a day past the end of a month is a day
    of the next month (of January of the next year after December), hour 24
    is hour 0 of the next day, minute 60 is minute 0 of the next hour. *)
Theorem calendar_rolls_over (y mo d h mi : Z) :
  100 <= y ->
  0 <= mo <= 11 ->
  JSDate.local_time y mo (DaysInMonth (JSDate.InLeapYear y) mo + d) h mi
  = JSDate.local_time y (mo + 1) d h mi /\
  JSDate.local_time y 12 d h mi = JSDate.local_time (y + 1) 0 d h mi /\
  JSDate.local_time y mo d (h + 24) mi = JSDate.local_time y mo (d + 1) h mi /\
  JSDate.local_time y mo d h (mi + 60) = JSDate.local_time y mo d (h + 1) mi.
Proof.
  intros Hy Hm. unfold JSDate.local_time.
  rewrite !MakeFullYear_id by lia.
  split; [|split; [|split]].
  - f_equal.
    destruct (month_cases mo Hm) as [->|[->|[->|[->|[->|[->|[->|[->|[->|[->|[->| ->]]]]]]]]]]].
    1-11: match goal with
          | |- context [JSDate.MakeDay _ (?a + 1) _] =>
              let v := eval compute in (a + 1) in change (a + 1) with v
          end;
      rewrite !MakeDay_in_year by lia;
      generalize (JSDate.DayFromYear y); intros D;
      destruct (JSDate.InLeapYear y); cbn; lia.
    change (11 + 1) with (0 + 12). rewrite MakeDay_month_carry.
    rewrite !MakeDay_in_year by lia. rewrite DayFromYear_succ.
    generalize (JSDate.DayFromYear y); intros D.
    destruct (JSDate.InLeapYear y), (JSDate.InLeapYear (y + 1)); cbn; lia.
  - change 12 with (0 + 12). now rewrite MakeDay_month_carry.
  - rewrite !MakeDay_in_year by lia.
    unfold JSDate.MakeDate, JSDate.MakeTime, JSDate.msPerDay, JSDate.msPerHour,
      JSDate.msPerMinute, JSDate.msPerSecond. lia.
  - unfold JSDate.MakeDate, JSDate.MakeTime, JSDate.msPerDay, JSDate.msPerHour,
      JSDate.msPerMinute, JSDate.msPerSecond. lia.
Qed.

Lemma calendar_rolls_over_witness :
  100 <= 2024 /\ 0 <= 1 <= 11 /\
  JSDate.local_time 2024 1 (DaysInMonth (JSDate.InLeapYear 2024) 1 + 1) 0 0
  = JSDate.local_time 2024 (1 + 1) 1 0 0.
Proof.
  assert (Hy : 100 <= 2024) by lia.
  assert (Hm : 0 <= 1 <= 11) by lia.
  split; [exact Hy|]. split; [exact Hm|].
  exact (proj1 (calendar_rolls_over 2024 1 1 0 0 Hy Hm)).
Defined.

Lemma time_of_valid (t : Fields) :
  valid_fields t ->
  time_of t
  = (JSDate.DayFromYear (f_year t)
     + JSDate.MonthStart (JSDate.InLeapYear (f_year t)) (f_month t)
     + f_day t - 1) * 86400000
    + f_hour t * 3600000 + f_min t * 60000.
Proof.
  intros (Hy & Hm & Hd & Hh & Hi). unfold time_of, JSDate.local_time.
  rewrite MakeFullYear_id, MakeDay_in_year by lia.
  unfold JSDate.MakeDate, JSDate.MakeTime, JSDate.msPerDay, JSDate.msPerHour,
    JSDate.msPerMinute, JSDate.msPerSecond. lia.
Qed.

Lemma day_in_year_bounds (leap : bool) (mo d : Z) :
  0 <= mo <= 11 -> 1 <= d <= DaysInMonth leap mo ->
  0 <= JSDate.MonthStart leap mo + d - 1 <= 364 + (if leap then 1 else 0).
Proof.
  intros Hm Hd.
  destruct (month_cases mo Hm) as [->|[->|[->|[->|[->|[->|[->|[->|[->|[->|[->| ->]]]]]]]]]]];
    destruct leap; cbn in *; lia.
Qed.

Lemma months_in_order (leap : bool) (m1 m2 d1 d2 : Z) :
  0 <= m1 -> m1 < m2 -> m2 <= 11 ->
  d1 <= DaysInMonth leap m1 -> 1 <= d2 ->
  JSDate.MonthStart leap m1 + d1 < JSDate.MonthStart leap m2 + d2.
Proof.
  intros H1 H12 H2 Hd1 Hd2.
  assert (Hm1 : 0 <= m1 <= 11) by lia.
  assert (Hm2 : 0 <= m2 <= 11) by lia.
  destruct (month_cases m1 Hm1) as [->|[->|[->|[->|[->|[->|[->|[->|[->|[->|[->| ->]]]]]]]]]]];
    destruct (month_cases m2 Hm2) as [->|[->|[->|[->|[->|[->|[->|[->|[->|[->|[->| ->]]]]]]]]]]];
    try lia; destruct leap; cbn in *; lia.
Qed.

(** On the dates of the calendar from 2000 to 2099 the local time value
    keeps the order of the calendar. *)
Lemma time_of_keeps_order (a b : Fields) :
  valid_fields a -> valid_fields b -> fields_before a b ->
  time_of a < time_of b.
Proof.
  intros Ha Hb Hlt.
  rewrite (time_of_valid a Ha), (time_of_valid b Hb).
  destruct Ha as (Hya & Hma & Hda & Hha & Hia).
  destruct Hb as (Hyb & Hmb & Hdb & Hhb & Hib).
  pose proof (day_in_year_bounds _ _ _ Hma Hda) as Ba.
  pose proof (day_in_year_bounds _ _ _ Hmb Hdb) as Bb.
  destruct Hlt as [Hy | [Ey Hlt]].
  - pose proof (DayFromYear_succ (f_year a)) as Hs.
    pose proof (DayFromYear_mono (f_year a + 1) (f_year b) ltac:(lia)) as Hmono.
    destruct (JSDate.InLeapYear (f_year a)); lia.
  - rewrite Ey in *.
    destruct Hlt as [Hm | [Em Hlt]].
    + pose proof (months_in_order (JSDate.InLeapYear (f_year b)) _ _
                    (f_day a) (f_day b) (proj1 Hma) Hm (proj2 Hmb)
                    (proj2 Hda) (proj1 Hdb)) as Ho.
      lia.
    + rewrite Em in *. lia.
Qed.

Lemma descriptor_fullDate (UTC : Z -> Z) (e : Entry) :
  fullDate (descriptor UTC e) = UTC (time_of (name_fields (entry_name e))).
Proof. reflexivity. Qed.

(** Where the conversion of the host from local time to UTC keeps the
    order (a zone with a fixed offset), the descriptors of names with real
    calendar fields (years 2000 to 2099, month 01 to 12, a day of that
    month, hour below 24, minute below 60) are dated in the order of the
    calendar: the later name has the later fullDate, and two such names
    with different fields never have one fullDate. *)
Theorem valid_names_keep_order (UTC : Z -> Z) (e1 e2 : Entry) :
  (forall s t : Z, s < t -> UTC s < UTC t) ->
  valid_fields (name_fields (entry_name e1)) ->
  valid_fields (name_fields (entry_name e2)) ->
  fields_before (name_fields (entry_name e1)) (name_fields (entry_name e2)) ->
  fullDate (descriptor UTC e1) < fullDate (descriptor UTC e2).
Proof.
  intros Hutc H1 H2 Hb. rewrite !descriptor_fullDate.
  apply Hutc, time_of_keeps_order; assumption.
Qed.

Lemma valid_names_keep_order_witness :
  (forall s t : Z, s < t -> utc_zone s < utc_zone t) /\
  valid_fields (name_fields "231231_2359.mp3") /\
  valid_fields (name_fields "240101_0900.mp3") /\
  fields_before (name_fields "231231_2359.mp3") (name_fields "240101_0900.mp3") /\
  fullDate (descriptor utc_zone (mkEntry KindFile "231231_2359.mp3"))
  < fullDate (descriptor utc_zone (mkEntry KindFile "240101_0900.mp3")).
Proof.
  assert (Hu : forall s t : Z, s < t -> utc_zone s < utc_zone t)
    by (intros s t H; exact H).
  assert (E1 : name_fields "231231_2359.mp3" = mkFields 2023 11 31 23 59)
    by reflexivity.
  assert (E2 : name_fields "240101_0900.mp3" = mkFields 2024 0 1 9 0)
    by reflexivity.
  assert (H1 : valid_fields (name_fields "231231_2359.mp3"))
    by (rewrite E1; unfold valid_fields; cbn; lia).
  assert (H2 : valid_fields (name_fields "240101_0900.mp3"))
    by (rewrite E2; unfold valid_fields; cbn; lia).
  assert (Hb : fields_before (name_fields "231231_2359.mp3")
                 (name_fields "240101_0900.mp3"))
    by (rewrite E1, E2; left; cbn; lia).
  split; [exact Hu|]. split; [exact H1|]. split; [exact H2|]. split; [exact Hb|].
  exact (valid_names_keep_order utc_zone (mkEntry KindFile "231231_2359.mp3")
           (mkEntry KindFile "240101_0900.mp3") Hu H1 H2 Hb).
Defined.

(** ** Edge cases of the scan and of the object URLs *)

(** A scan that succeeds on a folder without a recording empties the file
    list, whatever was listed before. *)
Theorem scan_without_recordings_empties (UTC : Z -> Z) (it : DirIter)
    (st : State) :
  iter_throws it = false ->
  Forall (fun e => kind e = KindDirectory \/ ~ recording_name (entry_name e))
    (iter_entries it) ->
  files (state_after (handleFolderSelect UTC (Ok it)) st) = nil.
Proof.
  intros H Hall.
  rewrite (handleFolderSelect_descriptors UTC it st H).
  change (files (with_files ?l st)) with l.
  assert (E : List.filter accepts (iter_entries it) = nil).
  { induction Hall as [|e l He _ IH]; [reflexivity|].
    cbn [List.filter]. destruct (accepts e) eqn:Ea; [|exact IH].
    apply accepts_iff in Ea. destruct Ea as [Hk Hn].
    destruct He as [Hd|Hr]; [congruence|contradiction]. }
  rewrite E. reflexivity.
Qed.

Lemma scan_without_recordings_empties_witness :
  let it := iter_of_list [ mkEntry KindFile "notes.txt";
                           mkEntry KindDirectory "240101_0900.mp3" ] in
  iter_throws it = false /\
  files sample_listing = [file_240101; file_231231] /\
  files (state_after (handleFolderSelect utc_zone (Ok it)) sample_listing) = nil.
Proof.
  intros it. split; [reflexivity|]. split; [vm_compute; reflexivity|].
  apply (scan_without_recordings_empties utc_zone it sample_listing eq_refl).
  constructor; [|constructor; [|constructor]].
  - right. intros H. apply scan_re_matches in H. apply H. vm_compute. reflexivity.
  - left. reflexivity.
Defined.

(** In every state all the object URLs that were ever created are live, in
    the order of their creation: none has been revoked. *)
Theorem urls_are_never_revoked (UTC : Z -> Z) (st : State) :
  reachable UTC st ->
  objectURLs st = seq 0 (created st) /\
  Forall (fun e => match e with RevokeObjectURL _ => False | _ => True end)
    (effects st).
Proof.
  intros Hr. split; [exact (reachable_urls UTC st Hr)|].
  induction Hr as [|st ev Hr IH Hen]; [constructor|].
  destruct (is_folder_select ev) eqn:E.
  - destruct ev; try discriminate E.
    destruct (step_folder_shape UTC picked st) as [-> | [l ->]]; [|exact IH].
    cbn. apply Forall_app. split; [exact IH|]. repeat constructor.
  - destruct ev; try discriminate E; run_handler;
      repeat (case_match; simplify_eq/=); try exact IH;
      rewrite ?Forall_app; repeat split; try exact IH; repeat constructor.
Qed.

Lemma urls_are_never_revoked_witness :
  reachable utc_zone sample_transcribing /\
  objectURLs sample_transcribing = seq 0 (created sample_transcribing).
Proof.
  split; [exact reachable_sample_transcribing|].
  exact (proj1 (urls_are_never_revoked utc_zone sample_transcribing
                  reachable_sample_transcribing)).
Defined.
